(** * lib/internal/errors.js: the error-code registry and the NodeError classes

    A shallow embedding of the module.  JavaScript values are a flat
    inductive type; arrays live in a store and are passed by reference, since
    [message] updates its [args] array in place; the module-level variables
    ([messages], [assert], [util]) are the fields of a state record that every
    function threads; a JavaScript [throw] is the [Throw] result. *)

From stdpp Require Import base option list gmap strings pretty countable.

Local Open Scope string_scope.
Local Open Scope Z_scope.

(** ** The host language *)

Module Js.

(** A function value: one of the arrow functions and function declarations of
    errors.js, or a closure of the embedder identified by a number. *)
Inductive funref : Set :=
  | FnErrAssertion
  | FnInvalidArgType
  | FnInvalidArgValue
  | FnInvalidFlag
  | FnInvalidIp
  | FnInvalidPort
  | FnSettingServers
  | FnUser (id : nat).

(** JavaScript values.  Numbers are the integer-valued ones (no fraction, NaN
    or infinity); a symbol carries its identity and its description; an array
    is a reference into the store. *)
Inductive val : Set :=
  | VUndefined
  | VNull
  | VBool (b : bool)
  | VNum (n : Z)
  | VStr (s : string)
  | VSym (id : nat) (description : string)
  | VArr (l : nat)
  | VFun (f : funref).

#[global] Instance funref_eq_dec : EqDecision funref.
Proof. solve_decision. Defined.

#[global] Instance val_eq_dec : EqDecision val.
Proof. solve_decision. Defined.

Definition funref_code (f : funref) : nat + nat :=
  match f with
  | FnErrAssertion => inl 0%nat
  | FnInvalidArgType => inl 1%nat
  | FnInvalidArgValue => inl 2%nat
  | FnInvalidFlag => inl 3%nat
  | FnInvalidIp => inl 4%nat
  | FnInvalidPort => inl 5%nat
  | FnSettingServers => inl 6%nat
  | FnUser id => inr id
  end.

Definition funref_decode (c : nat + nat) : funref :=
  match c with
  | inl 0%nat => FnErrAssertion
  | inl 1%nat => FnInvalidArgType
  | inl 2%nat => FnInvalidArgValue
  | inl 3%nat => FnInvalidFlag
  | inl 4%nat => FnInvalidIp
  | inl 5%nat => FnInvalidPort
  | inl _ => FnSettingServers
  | inr id => FnUser id
  end.

#[global] Instance funref_countable : Countable funref.
Proof.
  apply (inj_countable' funref_code funref_decode).
  by intros [].
Defined.

Definition val_code (v : val)
  : bool + (bool + (Z + (string + (nat * string + (nat + funref))))) :=
  match v with
  | VUndefined => inl false
  | VNull => inl true
  | VBool b => inr (inl b)
  | VNum n => inr (inr (inl n))
  | VStr s => inr (inr (inr (inl s)))
  | VSym id d => inr (inr (inr (inr (inl (id, d)))))
  | VArr l => inr (inr (inr (inr (inr (inl l)))))
  | VFun f => inr (inr (inr (inr (inr (inr f)))))
  end.

Definition val_decode
  (c : bool + (bool + (Z + (string + (nat * string + (nat + funref)))))) : val :=
  match c with
  | inl false => VUndefined
  | inl true => VNull
  | inr (inl b) => VBool b
  | inr (inr (inl n)) => VNum n
  | inr (inr (inr (inl s))) => VStr s
  | inr (inr (inr (inr (inl (id, d))))) => VSym id d
  | inr (inr (inr (inr (inr (inl l))))) => VArr l
  | inr (inr (inr (inr (inr (inr f))))) => VFun f
  end.

#[global] Instance val_countable : Countable val.
Proof.
  apply (inj_countable' val_code val_decode).
  by intros [].
Defined.

(** What the engine throws. *)
Inductive exn : Type :=
  | AssertionError (message : option string)
  | NativeTypeError (message : string)
  | Thrown (v : val).

Inductive res (A : Type) : Type :=
  | Ok (a : A)
  | Throw (e : exn).
Arguments Ok {A} a.
Arguments Throw {A} e.

Definition res_map {A B} (f : A -> B) (r : res A) : res B :=
  match r with
  | Ok a => Ok (f a)
  | Throw e => Throw e
  end.

(** The store of array objects is a [gmap nat (list val)].  Contents of the
    array at [l]: a reference is only ever obtained from an allocation, so it
    is bound. *)
Definition array_at (h : gmap nat (list val)) (l : nat) : list val :=
  default [] (h !! l).

(** [typeof v] *)
Definition typeof (v : val) : string :=
  match v with
  | VUndefined => "undefined"
  | VNull => "object"
  | VBool _ => "boolean"
  | VNum _ => "number"
  | VStr _ => "string"
  | VSym _ _ => "symbol"
  | VArr _ => "object"
  | VFun _ => "function"
  end.

(** A safe integer, [Number.isSafeInteger]: below 2^53 in magnitude.  Every
    such integer is a double, and its shortest decimal form is its exact
    one. *)
Definition safe (n : Z) : bool := Z.abs n <? 2 ^ 53.

(** ToBoolean: the falsy values are undefined, null, false, 0 and ''. *)
Definition truthy (v : val) : bool :=
  match v with
  | VUndefined | VNull => false
  | VBool b => b
  | VNum n => negb (n =? 0)
  | VStr s => negb (String.eqb s "")
  | VSym _ _ | VArr _ | VFun _ => true
  end.

End Js.

(** ** The module lib/internal/errors.js *)

Module Errors.
Import Js.

(** The module-level variables: the [messages] Map (keys compared by
    SameValueZero, which on [val] is equality), the lazily required [assert]
    and [util] modules ([true] once required), and the store of arrays. *)
Record state : Type := State {
  messages : gmap val val;
  assert : bool;
  util : bool;
  heap : gmap nat (list val)
}.

Definition set_messages (m : gmap val val) (st : state) : state :=
  State m (assert st) (util st) (heap st).
Definition set_assert (b : bool) (st : state) : state :=
  State (messages st) b (util st) (heap st).
Definition set_util (b : bool) (st : state) : state :=
  State (messages st) (assert st) b (heap st).
Definition set_heap (h : gmap nat (list val)) (st : state) : state :=
  State (messages st) (assert st) (util st) h.

(** Computations: a result or a thrown exception, and the state left behind
    (what was written before a throw stays written). *)
Definition M (A : Type) : Type := state -> res A * state.

Definition ret {A} (a : A) : M A := fun st => (Ok a, st).
Definition throw {A} (e : exn) : M A := fun st => (Throw e, st).
Definition bind {A B} (m : M A) (k : A -> M B) : M B :=
  fun st =>
    match m st with
    | (Ok a, st') => k a st'
    | (Throw e, st') => (Throw e, st')
    end.
Definition gets {A} (f : state -> A) : M A := fun st => (Ok (f st), st).
Definition modify (f : state -> state) : M unit := fun st => (Ok tt, f st).
Definition lift {A} (r : res A) : M A := fun st => (r, st).

Notation "x <~ m ;; k" := (bind m (fun x => k))
  (at level 100, m at next level, right associativity,
   format "'[v' x  <~  m  ;; '/' k ']'").
Notation "m ;;; k" := (bind m (fun _ => k))
  (at level 100, right associativity, format "'[v' m  ;;; '/' k ']'").

(** The state after running [m], whether it returned or threw. *)
Definition exec {A} (m : M A) (st : state) : state := snd (m st).
Definition result {A} (m : M A) (st : state) : res A := fst (m st).

(** A callable: the argument list to a result. *)
Definition jsfun : Type := list val -> M val.

(** The double quote character, as a string. *)
Definition quote : string := String (Ascii.ascii_of_nat 34) EmptyString.

(** [args[i]], [undefined] past the end. *)
Definition arg (i : nat) (args : list val) : val := default VUndefined (args !! i).

(** [Array.prototype.join] on an array of strings. *)
Fixpoint join (sep : string) (l : list string) : string :=
  match l with
  | [] => ""
  | [x] => x
  | x :: rest => x +:+ sep +:+ join sep rest
  end.

(** [xs.map(f)], left to right. *)
Fixpoint traverse {A B} (f : A -> M B) (xs : list A) : M (list B) :=
  match xs with
  | [] => ret []
  | x :: rest => y <~ f x ;; ys <~ traverse f rest ;; ret (y :: ys)
  end.

Section Host.

(** What the host supplies: the string conversion of an object (an array or
    a function), which reads the store and may throw; the closures of the
    embedder; the stack text that [Error.captureStackTrace] installs. *)
Variable obj_to_string : gmap nat (list val) -> val -> res string.
Variable closures : nat -> jsfun.
Variable stack_trace : string.

(** Modelled from the spec: [util.format], which lib/util.js defines, is the
    generic sprintf-style formatter, an injected formatting capability: it
    takes the format string and the arguments after it and returns the
    formatted string. *)
Variable util_format : gmap nat (list val) -> list val -> res string.

(** The engine's [Number::toString] on a number that is not a safe integer:
    the shortest digits that read back as the same double, in exponent
    notation from 1e21 on. *)
Variable number_to_string : Z -> string.

(** The message of the TypeError that strict code gets when it assigns to a
    property, named by the argument, that has a getter and no setter. *)
Variable getter_only : val -> string.

(** [String(v)] *)
Definition String_ (v : val) : M string :=
  match v with
  | VUndefined => ret "undefined"
  | VNull => ret "null"
  | VBool b => ret (if b then "true" else "false")
  | VNum n => ret (if safe n then pretty n else number_to_string n)
  | VStr s => ret s
  | VSym _ d => ret ("Symbol(" +:+ d +:+ ")")
  | VArr _ | VFun _ => h <~ gets heap ;; lift (obj_to_string h v)
  end.

(** ToString, the conversion inside a template literal: as [String(v)] but a
    symbol throws. *)
Definition ToString (v : val) : M string :=
  match v with
  | VSym _ _ => throw (NativeTypeError "Cannot convert a Symbol value to a string")
  | _ => String_ v
  end.

(** Modelled from the spec: [assert(value, message)] of lib/assert.js, the
    injected precondition check: it fails with an assertion-kind error that
    carries [message] when [value] is falsy. *)
Definition assert_ok (value : val) (message : string) : M unit :=
  if truthy value then ret tt else throw (AssertionError (Some message)).

(** Modelled from the spec: [assert.strictEqual(actual, expected)] of
    lib/assert.js: it fails with an assertion-kind error, whose message the
    library generates, unless [actual === expected]. *)
Definition assert_strictEqual (actual expected : val) : M unit :=
  if decide (actual = expected) then ret tt else throw (AssertionError None).

Definition lazyAssert : M unit := modify (set_assert true).

Definition lazyUtil : M unit := modify (set_util true).

(** [fmt.apply(null, args)]: [args] is absent or an array reference. *)
Definition apply (fmt : jsfun) (args : option nat) : M val :=
  match args with
  | None => fmt []
  | Some l => xs <~ gets (fun st => array_at (heap st) l) ;; fmt xs
  end.

(** [args.unshift(msg)] *)
Definition unshift (l : nat) (v : val) : M unit :=
  modify (fun st => set_heap (<[l := v :: array_at (heap st) l]> (heap st)) st).

Definition format : jsfun :=
  fun xs => h <~ gets heap ;; s <~ lift (util_format h xs) ;; ret (VStr s).

(** [function invalidArgType(name, expected, actual)] *)
Definition invalidArgType : jsfun := fun arguments =>
  let name := arg 0 arguments in
  let expected := arg 1 arguments in
  let actual := arg 2 arguments in
  lazyAssert ;;;
  assert_ok name "name is required" ;;;
  assert_ok expected "expected is required" ;;;
  n <~ ToString name ;;
  let msg := "The " +:+ quote +:+ n +:+ quote +:+ " argument must be " in
  msg <~ match expected with
         | VArr l =>
             xs <~ gets (fun st => array_at (heap st) l) ;;
             let len := length xs in
             expected <~ traverse String_ xs ;;
             if decide (1 < len)%nat then
               ret (msg +:+ ("one of type " +:+ join ", " (take (len - 1) expected)
                             +:+ ", or ")
                        +:+ default "undefined" (expected !! (len - 1)%nat))
             else
               ret (msg +:+ ("type " +:+ default "undefined" (expected !! 0%nat)))
         | _ =>
             e <~ String_ expected ;;
             ret (msg +:+ ("type " +:+ e))
         end ;;
  if decide (3 <= length arguments)%nat then
    ret (VStr (msg +:+ (". Received type "
                        +:+ (if decide (actual = VNull) then "null" else typeof actual))))
  else ret (VStr msg).

(** [function invalidArgValue(name, expected, actual)] *)
Definition invalidArgValue : jsfun := fun arguments =>
  let name := arg 0 arguments in
  let expected := arg 1 arguments in
  let actual := arg 2 arguments in
  lazyAssert ;;;
  assert_ok name "name is required" ;;;
  assert_ok expected "expected is required" ;;;
  n <~ ToString name ;;
  let msg := "The " +:+ quote +:+ n +:+ quote +:+ " argument must be " in
  msg <~ match expected with
         | VArr l =>
             xs <~ gets (fun st => array_at (heap st) l) ;;
             let len := length xs in
             expected <~ traverse String_ xs ;;
             if decide (1 < len)%nat then
               ret (msg +:+ (join ", " (take (len - 1) expected) +:+ ", or ")
                        +:+ default "undefined" (expected !! (len - 1)%nat))
             else
               ret (msg +:+ default "undefined" (expected !! 0%nat))
         | _ =>
             e <~ String_ expected ;;
             ret (msg +:+ e)
         end ;;
  if decide (3 <= length arguments)%nat then
    ret (VStr (msg +:+ (". Received "
                        +:+ (if decide (actual = VNull) then "null" else typeof actual))))
  else ret (VStr msg).

(** Calling a function value: the functions of lines 87 to 98 and 103 to 147,
    or a closure of the embedder. *)
Definition call (f : funref) : jsfun :=
  match f with
  | FnErrAssertion => fun a => ret (arg 0 a)
  | FnInvalidArgType => invalidArgType
  | FnInvalidArgValue => invalidArgValue
  | FnInvalidFlag => fun a =>
      x <~ ToString (arg 0 a) ;; ret (VStr (x +:+ " must use valid flags"))
  | FnInvalidIp => fun a =>
      x <~ ToString (arg 0 a) ;;
      ip <~ ToString (arg 1 a) ;;
      ret (VStr (quote +:+ x +:+ quote
                 +:+ " argument must be a valid IP address, got " +:+ ip))
  | FnInvalidPort => fun a =>
      x <~ ToString (arg 0 a) ;;
      port <~ ToString (arg 1 a) ;;
      ret (VStr (quote +:+ x +:+ quote
                 +:+ " argument must be >= 0 and < 65536, got " +:+ port))
  | FnSettingServers => fun a =>
      err <~ ToString (arg 0 a) ;;
      servers <~ ToString (arg 1 a) ;;
      ret (VStr ("c-ares failed to set servers: " +:+ quote +:+ err +:+ quote
                 +:+ " [" +:+ servers +:+ "]"))
  | FnUser id => closures id
  end.

(** [function message(key, args)]; [args] is absent ([undefined]) or a
    reference to an array. *)
Definition message (key : val) (args : option nat) : M val :=
  lazyAssert ;;;
  assert_strictEqual (VStr (typeof key)) (VStr "string") ;;;
  lazyUtil ;;;
  msg <~ gets (fun st => default VUndefined (messages st !! key)) ;;
  k <~ ToString key ;;
  assert_ok msg ("An invalid error message key was used: " +:+ k +:+ ".") ;;;
  (* [inl v]: the early [return msg]; [inr fmt]: fall through to line 57 *)
  step <~ match msg with
          | VFun f => ret (inr (call f))
          | _ =>
              match args with
              | None => ret (inl msg)
              | Some l =>
                  len <~ gets (fun st => length (array_at (heap st) l)) ;;
                  if decide (len = 0%nat) then ret (inl msg)
                  else unshift l msg ;;; ret (inr format)
              end
          end ;;
  match step with
  | inl v => ret v
  | inr fmt =>
      r <~ apply fmt args ;;
      s <~ String_ r ;;
      ret (VStr s)
  end.

(** [typeof val === 'function' ? val : String(val)] *)
Definition template (value : val) : M val :=
  if decide (typeof value = "function") then ret value
  else s <~ String_ value ;; ret (VStr s).

(** [function E(sym, val)] *)
Definition E (sym value : val) : M unit :=
  v <~ template value ;;
  modify (fun st => set_messages (<[sym := v]> (messages st)) st).

(** Lines 87 to 98: the codes the module registers when it is loaded. *)
Definition init : M unit :=
  E (VStr "ERR_ASSERTION") (VFun FnErrAssertion) ;;;
  E (VStr "ERR_INVALID_ARGS") (VStr "invalid arguments") ;;;
  E (VStr "ERR_INVALID_ARG_TYPE") (VFun FnInvalidArgType) ;;;
  E (VStr "ERR_INVALID_ARG_VALUE") (VFun FnInvalidArgValue) ;;;
  E (VStr "ERR_INVALID_CALLBACK") (VStr "callback must be a function") ;;;
  E (VStr "ERR_INVALID_FLAG") (VFun FnInvalidFlag) ;;;
  E (VStr "ERR_INVALID_IP") (VFun FnInvalidIp) ;;;
  E (VStr "ERR_INVALID_PORT") (VFun FnInvalidPort) ;;;
  E (VStr "ERR_SETTING_SERVERS") (VFun FnSettingServers).

(** The state before the module is loaded, over any store. *)
Definition unloaded (h : gmap nat (list val)) : state := State ∅ false false h.

(** The state once the module is loaded. *)
Definition loaded (h : gmap nat (list val)) : state := exec init (unloaded h).

(** *** The classes *)

(** [const kCode = Symbol('code')] *)
Definition kCode : val := VSym 0 "code".

(** A base error kind ([Error], [TypeError], [RangeError], ...): the [name]
    on its prototype.  Its constructor is the one of [Error]: it stores the
    message, converted to a string, as an own property, unless the message is
    [undefined]. *)
Record BaseKind : Type := { name : string }.

Definition BaseError : BaseKind := {| name := "Error" |}.
Definition BaseTypeError : BaseKind := {| name := "TypeError" |}.
Definition BaseRangeError : BaseKind := {| name := "RangeError" |}.

(** An instance of [class NodeError extends Base]: the base kind, the own
    properties, keyed by strings and symbols, and the prototype link: [None]
    while it is the [NodeError.prototype] the instance was made with,
    [Some w] once it was replaced by [w] ([null], an array or a function). *)
Record object : Type := Object {
  base : BaseKind;
  own : gmap val val;
  proto : option val
}.

Definition set_own (p v : val) (o : object) : object :=
  Object (base o) (<[p := v]> (own o)) (proto o).

Definition set_proto (w : val) (o : object) : object :=
  Object (base o) (own o) (Some w).

(** What the host supplies for an instance whose prototype was replaced by
    an array or a function [w]: what reading [p] finds along the chain of
    [w], and what the assignment of [v] to [p] does once it reaches that
    chain. *)
Variable foreign_get : val -> val -> val.
Variable foreign_put : bool -> val -> object -> val -> val -> res object.

(** [super(msg)] *)
Definition construct_base (Base : BaseKind) (msg : val) : M object :=
  match msg with
  | VUndefined => ret (Object Base ∅ None)
  | _ => s <~ ToString msg ;; ret (Object Base {[ VStr "message" := VStr s ]} None)
  end.

(** [Error.captureStackTrace(this, NodeError)] *)
Definition captureStackTrace (this : object) : object :=
  set_own (VStr "stack") (VStr stack_trace) this.

(** [this[kCode]] *)
Definition get_kCode (this : object) : val := default VUndefined (own this !! kCode).

(** [get name()] *)
Definition NodeError_name (this : object) : M val :=
  n <~ ToString (VStr (name (base this))) ;;
  c <~ ToString (get_kCode this) ;;
  ret (VStr (n +:+ "[" +:+ c +:+ "]")).

(** [get code()] *)
Definition NodeError_code (this : object) : M val := ret (get_kCode this).

(** Reading [o[p]]: an own property, else the accessors of
    [NodeError.prototype], else [Base.prototype] (of which [message], the
    empty string, is modelled); once the prototype was replaced, an own
    property, else what the new chain holds (nothing below [null]). *)
Definition get (o : object) (p : val) : M val :=
  match own o !! p with
  | Some v => ret v
  | None =>
      match proto o with
      | None =>
          if decide (p = VStr "name") then NodeError_name o
          else if decide (p = VStr "code") then NodeError_code o
          else if decide (p = VStr "message") then ret (VStr "")
          else ret VUndefined
      | Some VNull => ret VUndefined
      | Some w => ret (foreign_get w p)
      end
  end.

(** The setter of [Object.prototype.__proto__]: the prototype becomes [v]
    when [v] is [null] or an object, and nothing happens otherwise. *)
Definition put_proto (o : object) (v : val) : object :=
  match v with
  | VNull | VArr _ | VFun _ => set_proto v o
  | _ => o
  end.

(** The assignment [o[p] = v], in strict or sloppy code: an own property is
    written; [name] and [code] are accessors without a setter on
    [NodeError.prototype], so the assignment throws in strict code and is
    ignored in sloppy code; [__proto__] is an accessor of [Object.prototype]
    whose setter replaces the prototype; anything else becomes a new own
    property.  Once the prototype was replaced: below [null] every name
    becomes an own property, and below an array or a function the chain of
    that object decides. *)
Definition put (strict : bool) (o : object) (p v : val) : M object :=
  match own o !! p with
  | Some _ => ret (set_own p v o)
  | None =>
      match proto o with
      | None =>
          if decide (p = VStr "name" \/ p = VStr "code") then
            if strict then throw (NativeTypeError (getter_only p))
            else ret o
          else if decide (p = VStr "__proto__") then ret (put_proto o v)
          else ret (set_own p v o)
      | Some VNull => ret (set_own p v o)
      | Some w => lift (foreign_put strict w o p v)
      end
  end.

(** The rest parameter [...args]: a fresh array. *)
Definition alloc (xs : list val) : M nat :=
  fun st =>
    let l := fresh (dom (heap st)) in
    (Ok l, set_heap (<[l := xs]> (heap st)) st).

(** [makeNodeError(Base)]: the constructor of the class it returns,
    [constructor(key, ...args)]. *)
Definition makeNodeError (Base : BaseKind) (key : val) (args : list val) : M object :=
  args <~ alloc args ;;
  msg <~ message key (Some args) ;;
  this <~ construct_base Base msg ;;
  let this := set_own kCode key this in
  ret (captureStackTrace this).

(** [module.exports] *)
Definition Error : val -> list val -> M object := makeNodeError BaseError.
Definition TypeError : val -> list val -> M object := makeNodeError BaseTypeError.
Definition RangeError : val -> list val -> M object := makeNodeError BaseRangeError.

(** *** Registrations *)

(** The code [C] is registered with the template [T]: [messages.get(C)] is
    [T].  Lemma [E_registered] below: that is what [E(C, T)] establishes. *)
Definition registered (st : state) (C : string) (T : val) : Prop :=
  messages st !! VStr C = Some T.

(** The code [C] is not registered: no call of [E] has put it in [messages]. *)
Definition unregistered (st : state) (C : string) : Prop :=
  messages st !! VStr C = None.

(** A sequence of calls [E(sym, val)], each run to its end or to its throw. *)
Definition registers (rs : list (val * val)) (st : state) : state :=
  foldl (fun st r => exec (E r.1 r.2) st) st rs.

(** The state [message] leaves when nothing else is written: both modules
    required. *)
Definition required (st : state) : state := set_util true (set_assert true st).

(** The contents of [args] as [message] sees them. *)
Definition args_of (st : state) (args : option nat) : list val :=
  match args with
  | None => []
  | Some l => array_at (heap st) l
  end.

(** [s] includes [t]. *)
Definition includes (s t : string) : Prop :=
  exists pre post, s = pre +:+ t +:+ post.

(** Some property assignments [o[p] = v] in a row, each in its own statement:
    one that throws leaves the object as it was. *)
Definition assign (strict : bool) (st : state) (o : object) (pv : string * val) : object :=
  match put strict o (VStr pv.1) pv.2 st with
  | (Ok o', _) => o'
  | (Throw _, _) => o
  end.

Definition assigns (strict : bool) (st : state) (pvs : list (string * val)) (o : object)
  : object :=
  foldl (assign strict st) o pvs.

(** What the constructor establishes of an instance: the private slot
    [kCode] holds the key, no own property shadows the accessors [code] and
    [name] of the prototype, and the prototype is the one of the class. *)
Definition stamped (key : val) (o : object) : Prop :=
  own o !! kCode = Some key
  /\ own o !! VStr "code" = None
  /\ own o !! VStr "name" = None
  /\ proto o = None.

(** *** Further notions *)

(** A computation that writes nothing. *)
Definition pure {A} (m : M A) : Prop := forall st, exec m st = st.

(** A function of errors.js itself, not a closure of the embedder. *)
Definition builtin (f : funref) : Prop :=
  match f with
  | FnUser _ => False
  | _ => True
  end.

(** The template stored under [key], if any, is not a closure of the
    embedder. *)
Definition no_closure (st : state) (key : val) : Prop :=
  forall f, messages st !! key = Some (VFun f) -> builtin f.

(** Every stored template is a string or a function. *)
Definition templates_ok (st : state) : Prop :=
  forall k v, messages st !! k = Some v -> typeof v = "string" \/ typeof v = "function".

(** What lines 120 to 122 append for the third argument. *)
Definition received (label : string) (actual : val) : string :=
  label +:+ (if decide (actual = VNull) then "null" else typeof actual).

Definition with_received (label : string) (actual : val) (v : val) : val :=
  match v with
  | VStr m => VStr (m +:+ received label actual)
  | _ => v
  end.

(** [st'] differs from [st] at most in the lazily required modules and in
    the array [l0]. *)
Definition same_but (l0 : option nat) (st st' : state) : Prop :=
  messages st' = messages st
  /\ forall l, l0 <> Some l -> heap st' !! l = heap st !! l.

(** A computation that changes at most the lazily required modules and the
    array [l0]. *)
Definition keeps (l0 : option nat) {A} (m : M A) : Prop :=
  forall st, same_but l0 st (exec m st).

(** A value that is not a symbol, an array or a function. *)
Definition primitive (v : val) : Prop :=
  match v with
  | VSym _ _ | VArr _ | VFun _ => False
  | _ => True
  end.

(** The arrow functions of lines 92 to 98, which build their message with a
    template literal. *)
Definition arrow (f : funref) : Prop :=
  match f with
  | FnInvalidFlag | FnInvalidIp | FnInvalidPort | FnSettingServers => True
  | _ => False
  end.

(** ** Properties *)

Lemma typeof_string (v : val) : typeof v = "string" <-> exists s, v = VStr s.
Proof.
  split.
  - destruct v; simpl; intros H; try discriminate. by eexists.
  - by intros [s ->].
Qed.

Lemma truthy_VStr (s : string) : truthy (VStr s) = true <-> s <> "".
Proof.
  simpl. destruct (String.eqb_spec s ""); simpl; split; congruence.
Qed.

(** [message] up to its branch on the template, for a string key. *)
Lemma message_string_key (C : string) (args : option nat) (st : state) :
  message (VStr C) args st =
  (let msg := default VUndefined (messages st !! VStr C) in
   assert_ok msg ("An invalid error message key was used: " +:+ C +:+ ".") ;;;
   step <~ match msg with
           | VFun f => ret (inr (call f))
           | _ =>
               match args with
               | None => ret (inl msg)
               | Some l =>
                   len <~ gets (fun st => length (array_at (heap st) l)) ;;
                   if decide (len = 0%nat) then ret (inl msg)
                   else unshift l msg ;;; ret (inr format)
               end
           end ;;
   match step with
   | inl v => ret v
   | inr fmt => r <~ apply fmt args ;; s <~ String_ r ;; ret (VStr s)
   end) (required st).
Proof. reflexivity. Qed.

(** [String(v)] reads the store and writes nothing. *)
Lemma String_pure (v : val) (st : state) :
  String_ v st = (result (String_ v) (unloaded (heap st)), st).
Proof. by destruct v. Qed.

Lemma template_pure (v : val) (st : state) :
  template v st = (result (template v) (unloaded (heap st)), st).
Proof.
  unfold template. case_decide; [done|].
  unfold bind, result. rewrite String_pure.
  rewrite (String_pure v (unloaded _)). simpl.
  by destruct (result (String_ v) _).
Qed.

(** What a call [E(sym, val)] leaves: the template stored under [sym], or
    nothing written when the conversion of [val] throws. *)
Lemma exec_E (sym v : val) (st : state) :
  exec (E sym v) st =
  match result (template v) (unloaded (heap st)) with
  | Ok t => set_messages (<[sym := t]> (messages st)) st
  | Throw _ => st
  end.
Proof.
  unfold exec, E, bind. rewrite template_pure.
  by destruct (result (template v) _).
Qed.

Lemma E_registered (C : string) (T : val) (st : state) :
  (exists S, T = VStr S) \/ (exists f, T = VFun f) ->
  registered (exec (E (VStr C) T) st) C T.
Proof.
  intros [[S ->]|[f ->]]; rewrite exec_E; simpl; apply lookup_insert_eq.
Qed.

Lemma heap_exec_E (sym v : val) (st : state) : heap (exec (E sym v) st) = heap st.
Proof. rewrite exec_E. by destruct (result (template v) _). Qed.

Lemma registers_cons (r : val * val) (rs : list (val * val)) (st : state) :
  registers (r :: rs) st = registers rs (exec (E r.1 r.2) st).
Proof. reflexivity. Qed.

Lemma heap_registers (rs : list (val * val)) (st : state) :
  heap (registers rs st) = heap st.
Proof.
  revert st. induction rs as [|r rs IH]; intros st; [done|].
  by rewrite registers_cons, IH, heap_exec_E.
Qed.

Lemma E_other (sym v k : val) (st : state) :
  sym <> k -> messages (exec (E sym v) st) !! k = messages st !! k.
Proof.
  intros Hne. rewrite exec_E.
  destruct (result (template v) _); [|done].
  simpl. by rewrite lookup_insert_ne.
Qed.

Lemma registers_other (rs : list (val * val)) (k : val) (st : state) :
  Forall (fun r => r.1 <> k) rs ->
  messages (registers rs st) !! k = messages st !! k.
Proof.
  revert st. induction rs as [|r rs IH]; intros st Hrs; [done|].
  inversion Hrs as [|? ? Hr Hrs']; subst.
  rewrite registers_cons, IH by done. by apply E_other.
Qed.

Lemma registers_unregistered (C : string) (rs : list (val * val)) (st : state) :
  unregistered st C ->
  Forall (fun r => r.1 <> VStr C) rs ->
  unregistered (registers rs st) C.
Proof.
  intros Hun Hrs. unfold unregistered. by rewrite registers_other.
Qed.

(** [message] returns only for a string key. *)
Lemma message_returns_string_key (key : val) (args : option nat)
    (st st' : state) (m : val) :
  message key args st = (Ok m, st') -> typeof key = "string".
Proof.
  intros H. destruct (decide (typeof key = "string")) as [|Hty]; [done|].
  exfalso. revert H. unfold message, bind; simpl.
  unfold assert_strictEqual. rewrite decide_False; [done|]. congruence.
Qed.

(** C8: [message(key, args)] with a [key] that is not a string throws an
    assertion error at line 45, whatever [messages] holds for [key] and
    whatever [args] is; only the [assert] module has been required by then. *)
Theorem message_non_string_key (key : val) (args : option nat) (st : state) :
  typeof key <> "string" ->
  message key args st = (Throw (AssertionError None), set_assert true st).
Proof.
  intros Hty. unfold message, bind; simpl.
  unfold assert_strictEqual.
  rewrite decide_False; [done|]. congruence.
Qed.

(** C3: [message(C, args)] for a string [C] that is not in [messages] (also
    after any registrations of other keys) throws an assertion error whose
    message is "An invalid error message key was used: C." and so includes
    [C], for every [args]. *)
Theorem message_unregistered (C : string) (args : option nat)
    (rs : list (val * val)) (st : state) :
  unregistered st C ->
  Forall (fun r => r.1 <> VStr C) rs ->
  exists m,
    message (VStr C) args (registers rs st)
      = (Throw (AssertionError (Some m)), required (registers rs st))
    /\ m = "An invalid error message key was used: " +:+ C +:+ "."
    /\ includes m C.
Proof.
  intros Hun Hrs.
  pose proof (registers_unregistered C rs st Hun Hrs) as Hun'.
  eexists. split; [|split; [reflexivity|]].
  - rewrite message_string_key. unfold unregistered in Hun'.
    rewrite Hun'. reflexivity.
  - by exists "An invalid error message key was used: ", ".".
Qed.

(** [message] on a code registered with a function. *)
Lemma message_of_function (C : string) (f : funref) (args : option nat) (st : state) :
  registered st C (VFun f) ->
  message (VStr C) args st =
  (r <~ call f (args_of st args) ;; s <~ String_ r ;; ret (VStr s)) (required st).
Proof.
  intros Hreg. rewrite message_string_key. unfold registered in Hreg.
  rewrite Hreg. simpl. unfold bind at 1 2. simpl.
  by destruct args.
Qed.

(** [message] on a code registered with a non-empty string, with arguments. *)
Lemma message_of_string_args (C S : string) (l : nat) (st : state) :
  registered st C (VStr S) ->
  S <> "" ->
  array_at (heap st) l <> [] ->
  let xs := VStr S :: array_at (heap st) l in
  let h := <[l := xs]> (heap st) in
  message (VStr C) (Some l) st
    = (res_map VStr (util_format h xs), set_heap h (required st)).
Proof.
  intros Hreg HS Hxs xs h. rewrite message_string_key.
  unfold registered in Hreg. rewrite Hreg. simpl.
  unfold assert_ok. rewrite (proj2 (truthy_VStr S) HS).
  unfold bind at 1. simpl. unfold bind at 1 2. simpl.
  rewrite decide_False by (by destruct (array_at (heap st) l)).
  unfold bind at 1. simpl. unfold bind at 1 2. simpl.
  unfold array_at at 1. rewrite lookup_insert_eq. simpl.
  unfold format, bind, lift; simpl. fold xs. fold h.
  unfold set_heap, required; simpl.
  by destruct (util_format h xs).
Qed.

(** Where line 48 lets the template through: for a code [C] registered with
    a fixed string [S] that is not the empty string, [message(C, args)] with
    [args] absent or empty returns exactly [S] (and writes nothing but the two
    lazily required modules). *)
Theorem message_fixed_no_args (C S : string) (args : option nat) (st : state) :
  registered st C (VStr S) ->
  S <> "" ->
  args_of st args = [] ->
  message (VStr C) args st = (Ok (VStr S), required st).
Proof.
  intros Hreg HS Hargs. rewrite message_string_key.
  unfold registered in Hreg. rewrite Hreg. simpl.
  unfold assert_ok. rewrite (proj2 (truthy_VStr S) HS).
  unfold bind at 1. simpl.
  destruct args as [l|]; [|done].
  simpl in Hargs. unfold bind, gets; simpl. by rewrite Hargs.
Qed.

(** C2: for a code [C] registered with a function [f], when [f] applied to
    the elements of [args] (none when [args] is absent) returns [r] and
    [String(r)] is [s] (so [s] is [r] itself when [r] is a string),
    [message(C, args)] returns [s], in the state [f] left. *)
Theorem message_function (C : string) (f : funref) (args : option nat)
    (st st' : state) (r : val) (s : string) :
  registered st C (VFun f) ->
  call f (args_of st args) (required st) = (Ok r, st') ->
  result (String_ r) st' = Ok s ->
  message (VStr C) args st = (Ok (VStr s), st')
  /\ (forall s', r = VStr s' -> s = s').
Proof.
  intros Hreg Hcall Hstr. split.
  - rewrite (message_of_function C f) by done.
    unfold bind. rewrite Hcall.
    pose proof (String_pure r st') as Hpure. unfold result in Hstr.
    destruct (String_ r st') as [r' st'']. simpl in Hstr. subst r'.
    by injection Hpure as _ ->.
  - intros s' ->. unfold result in Hstr. simpl in Hstr. congruence.
Qed.

(** Where line 48 lets the template through: for a code [C] registered with
    a fixed string [S] that is not the empty string and a non-empty [args],
    [message(C, args)] returns what [util.format] returns for [S] followed by
    the elements of [args] (and throws what it throws). *)
Theorem message_fixed_args (C S : string) (l : nat) (st : state) :
  registered st C (VStr S) ->
  S <> "" ->
  array_at (heap st) l <> [] ->
  result (message (VStr C) (Some l)) st
    = res_map VStr (util_format (<[l := VStr S :: array_at (heap st) l]> (heap st))
                                (VStr S :: array_at (heap st) l)).
Proof.
  intros Hreg HS Hxs. unfold result.
  by rewrite (message_of_string_args C S l st Hreg HS Hxs).
Qed.

(** Where line 48 lets the template through: for a code [C] registered with
    a fixed string [S] that is not the empty string and a non-empty array
    [args] of the caller, [message(C, args)] leaves [args] with [S] before its
    former elements, so one element longer, also when the formatter throws; no
    other array changes. *)
Theorem message_unshifts_args (C S : string) (l : nat) (st : state) :
  registered st C (VStr S) ->
  S <> "" ->
  array_at (heap st) l <> [] ->
  let st' := exec (message (VStr C) (Some l)) st in
  array_at (heap st') l = VStr S :: array_at (heap st) l
  /\ length (array_at (heap st') l) = (1 + length (array_at (heap st) l))%nat
  /\ forall l', l' <> l -> heap st' !! l' = heap st !! l'.
Proof.
  intros Hreg HS Hxs st'. subst st'. unfold exec.
  rewrite (message_of_string_args C S l st Hreg HS Hxs). simpl.
  assert (array_at (<[l:=VStr S :: array_at (heap st) l]> (heap st)) l
          = VStr S :: array_at (heap st) l) as Heq.
  { unfold array_at at 1. by rewrite lookup_insert_eq. }
  split; [done|]. split; [by rewrite Heq|].
  intros l' Hne. by rewrite lookup_insert_ne.
Qed.

(** *** Registering twice *)

Lemma E_twice (sym v : val) (st : state) :
  exec (E sym v) (exec (E sym v) st) = exec (E sym v) st.
Proof.
  rewrite (exec_E sym v (exec _ _)), heap_exec_E, exec_E.
  destruct (result (template v) _); [|done].
  unfold set_messages; simpl. by rewrite insert_insert_eq.
Qed.

Lemma E_commute (k w sym v : val) (st : state) :
  k <> sym ->
  exec (E k w) (exec (E sym v) st) = exec (E sym v) (exec (E k w) st).
Proof.
  intros Hne.
  rewrite (exec_E k w (exec _ _)), (exec_E sym v (exec _ _)), !heap_exec_E, !exec_E.
  destruct (result (template w) _), (result (template v) _); try done.
  unfold set_messages; simpl. by rewrite insert_insert_ne.
Qed.

Lemma E_overwrite (sym w v : val) (st : state) :
  exec (E sym w) (exec (E sym v) st) =
  match result (template w) (unloaded (heap st)) with
  | Ok _ => exec (E sym w) st
  | Throw _ => exec (E sym v) st
  end.
Proof.
  rewrite (exec_E sym w (exec _ _)), heap_exec_E, (exec_E sym w st).
  destruct (result (template w) _); [|done].
  rewrite exec_E. destruct (result (template v) _); [|done].
  unfold set_messages; simpl. by rewrite insert_insert_eq.
Qed.

(** Registrations of other keys commute with [E(sym, v)]. *)
Lemma registers_commute (sym v : val) (rs : list (val * val)) (st : state) :
  Forall (fun r => r.1 <> sym) rs ->
  registers rs (exec (E sym v) st) = exec (E sym v) (registers rs st).
Proof.
  revert st. induction rs as [|r rs IH]; intros st Hrs; [done|].
  inversion Hrs as [|? ? Hr Hrs']; subst.
  by rewrite !registers_cons, E_commute, IH.
Qed.

(** Whatever is registered in between, also under [sym] itself, a last
    [E(sym, v)] makes an earlier one redundant. *)
Lemma E_absorbs (sym v : val) (rs : list (val * val)) (st : state) :
  exec (E sym v) (registers rs (exec (E sym v) st))
    = exec (E sym v) (registers rs st).
Proof.
  revert st. induction rs as [|r rs IH]; intros st.
  - apply E_twice.
  - rewrite !registers_cons. destruct (decide (r.1 = sym)) as [->|Hne].
    + rewrite E_overwrite.
      destruct (result (template r.2) (unloaded (heap st))) eqn:Ht; [done|].
      (* the conversion of [r.2] throws: that call wrote nothing *)
      by rewrite IH, (exec_E sym r.2 st), Ht.
    + by rewrite E_commute, IH.
Qed.

(** C9: registering [sym] with [v] again, directly or after registrations
    of other keys, changes nothing: the state is the one that registering
    once left, so [message] returns the same for every key and [args]. *)
Theorem E_idempotent (sym v : val) (rs : list (val * val)) (st : state) :
  Forall (fun r => r.1 <> sym) rs ->
  let once := registers rs (exec (E sym v) st) in
  let twice := exec (E sym v) once in
  twice = once
  /\ forall key args, message key args twice = message key args once.
Proof.
  intros Hrs once twice.
  assert (twice = once) as ->; [|done].
  subst once twice. by rewrite registers_commute, E_twice.
Qed.

(** *** Instances *)

Lemma construct_base_own (Base : BaseKind) (msg : val) (st st' : state) (o : object) :
  construct_base Base msg st = (Ok o, st') ->
  base o = Base /\ st' = st
  /\ (forall p, p <> VStr "message" -> own o !! p = None)
  /\ proto o = None.
Proof.
  unfold construct_base. intros H.
  assert (msg = VUndefined \/ msg <> VUndefined) as [->|Hne]
    by (destruct msg; auto).
  - injection H as <- <-. by repeat split.
  - assert ((s <~ ToString msg ;;
             ret (Object Base {[VStr "message" := VStr s]} None)) st = (Ok o, st')) as H'
      by (by destruct msg).
    clear H. unfold bind in H'.
    assert (ToString msg st = (result (ToString msg) (unloaded (heap st)), st)) as Hp.
    { destruct msg; try done. all: apply String_pure. }
    rewrite Hp in H'. destruct (result (ToString msg) _); [|done].
    injection H' as <- <-. split; [done|]. split; [done|]. split; [|done].
    intros p Hp'. simpl. by rewrite lookup_singleton_ne.
Qed.

(** What a successful construction went through. *)
Lemma makeNodeError_Ok (Base : BaseKind) (key : val) (args : list val)
    (st st' : state) (o : object) :
  makeNodeError Base key args st = (Ok o, st') ->
  exists msg o0,
    typeof key = "string"
    /\ message key (Some (fresh (dom (heap st)))) (exec (alloc args) st) = (Ok msg, st')
    /\ construct_base Base msg st' = (Ok o0, st')
    /\ o = captureStackTrace (set_own kCode key o0).
Proof.
  unfold makeNodeError. unfold bind at 1.
  change (alloc args st) with (Ok (fresh (dom (heap st))), exec (alloc args) st).
  cbv beta iota. unfold bind at 1. intros H.
  destruct (message key _ _) as [[msg|e] st1] eqn:Hmsg; [|done].
  pose proof (message_returns_string_key _ _ _ _ _ Hmsg) as Hty.
  unfold bind in H.
  destruct (construct_base Base msg st1) as [[o0|e] st2] eqn:Hb; [|done].
  destruct (construct_base_own _ _ _ _ _ Hb) as (_ & -> & _).
  injection H as <- <-. by exists msg, o0.
Qed.

Lemma makeNodeError_stamped (Base : BaseKind) (key : val) (args : list val)
    (st st' : state) (o : object) :
  makeNodeError Base key args st = (Ok o, st') ->
  base o = Base /\ stamped key o.
Proof.
  intros H. destruct (makeNodeError_Ok _ _ _ _ _ _ H) as (msg & o0 & _ & _ & Hb & ->).
  destruct (construct_base_own _ _ _ _ _ Hb) as (Hbase & _ & Hown & Hproto).
  split; [done|]. unfold stamped, captureStackTrace, set_own, kCode; simpl.
  rewrite !lookup_insert_ne by done. rewrite lookup_insert_eq.
  rewrite !lookup_insert_ne by done. rewrite !Hown by done. done.
Qed.

Lemma get_code_stamped (key : val) (o : object) (st : state) :
  stamped key o -> get o (VStr "code") st = (Ok key, st).
Proof.
  intros (Hk & Hc & _ & Hp). unfold get. rewrite Hc, Hp. simpl.
  unfold NodeError_code, get_kCode. by rewrite Hk.
Qed.

Lemma get_name_stamped (C : string) (o : object) (st : state) :
  stamped (VStr C) o ->
  get o (VStr "name") st = (Ok (VStr (name (base o) +:+ "[" +:+ C +:+ "]")), st).
Proof.
  intros (Hk & _ & Hn & Hp). unfold get. rewrite Hn, Hp. simpl.
  unfold NodeError_name, get_kCode. by rewrite Hk.
Qed.

(** An assignment to [code] (or [name]) of a stamped instance does nothing. *)
Lemma put_accessor (strict : bool) (key v : val) (o : object) (st : state) :
  stamped key o ->
  put strict o (VStr "code") v st
    = (if strict then Throw (NativeTypeError (getter_only (VStr "code")))
       else Ok o, st).
Proof.
  intros (_ & Hc & _ & Hp). unfold put. rewrite Hc, Hp.
  rewrite decide_True by auto. by destruct strict.
Qed.

(** An assignment to a property named by a string other than [__proto__]
    keeps the stamp. *)
Lemma assign_stamped (strict : bool) (key : val) (st : state) (o : object)
    (pv : string * val) :
  pv.1 <> "__proto__" ->
  stamped key o -> stamped key (assign strict st o pv).
Proof.
  intros Hpv Hst. pose proof Hst as (Hk & Hc & Hn & Hproto).
  unfold assign, put.
  destruct (own o !! VStr pv.1) eqn:Hp.
  - simpl. unfold stamped, set_own, kCode in *; simpl.
    rewrite !lookup_insert_ne; [done|..];
      intros Heq; first [discriminate Heq | rewrite Heq in Hp; congruence].
  - rewrite Hproto. case_decide as Hd.
    + by destruct strict.
    + rewrite decide_False by congruence.
      simpl. unfold stamped, set_own, kCode in *; simpl.
      rewrite !lookup_insert_ne; [done|..];
        intros Heq; first [discriminate Heq | apply Hd; auto].
Qed.

Lemma assigns_stamped (strict : bool) (key : val) (st : state)
    (pvs : list (string * val)) (o : object) :
  Forall (fun pv => pv.1 <> "__proto__") pvs ->
  stamped key o -> stamped key (assigns strict st pvs o).
Proof.
  revert o. induction pvs as [|pv pvs IH]; intros o Hpvs Hst; [done|].
  inversion Hpvs as [|? ? Hpv Hpvs']; subst.
  simpl. apply IH; [done|]. by apply assign_stamped.
Qed.

(** The assignment [o.__proto__ = null] is another matter: it runs the
    setter of [Object.prototype], the instance loses the accessors of its
    class, and [o.code] and [o.name] read [undefined]. *)
Lemma assign_proto_null (strict : bool) (key : val) (o : object) (s s' : state) :
  stamped key o ->
  own o !! VStr "__proto__" = None ->
  get (assign strict s o ("__proto__", VNull)) (VStr "code") s' = (Ok VUndefined, s')
  /\ get (assign strict s o ("__proto__", VNull)) (VStr "name") s' = (Ok VUndefined, s').
Proof.
  intros (Hk & Hc & Hn & Hproto) Hp.
  unfold assign, put. simpl. rewrite Hp, Hproto. simpl.
  unfold get. simpl. by rewrite Hc, Hn.
Qed.

(** C5: an instance [o] that [new (makeNodeError(Base))(key, ...args)]
    produced has [o.code] equal to [key]; an assignment [o.code = v] throws in
    strict code and is ignored in sloppy code, leaving [o] as it was; and after
    any assignments to properties named by strings other than [__proto__]
    (whose setter replaces the prototype and with it the accessor) [o.code]
    is still [key]. *)
Theorem makeNodeError_code (Base : BaseKind) (key : val) (args : list val)
    (st st' : state) (o : object) :
  makeNodeError Base key args st = (Ok o, st') ->
  (forall s, get o (VStr "code") s = (Ok key, s))
  /\ (forall strict v s,
        exec (put strict o (VStr "code") v) s = s
        /\ (result (put strict o (VStr "code") v) s = Ok o
            \/ exists e, result (put strict o (VStr "code") v) s = Throw e)
        /\ assign strict s o ("code", v) = o)
  /\ (forall strict pvs s s',
        Forall (fun pv => pv.1 <> "__proto__") pvs ->
        get (assigns strict s pvs o) (VStr "code") s' = (Ok key, s')).
Proof.
  intros H. destruct (makeNodeError_stamped _ _ _ _ _ _ H) as [_ Hst].
  split; [|split].
  - intros s. by apply get_code_stamped.
  - intros strict v s. unfold assign, exec, result. simpl.
    rewrite (put_accessor strict key v o s Hst).
    destruct strict; simpl; eauto.
  - intros strict pvs s s' Hpvs. apply get_code_stamped. by apply assigns_stamped.
Qed.

(** C6: an instance that [new (makeNodeError(Base))(C, ...args)] produced
    has [name] equal to the name of [Base], then [C] in square brackets. *)
Theorem makeNodeError_name (Base : BaseKind) (C : string) (args : list val)
    (st st' : state) (o : object) :
  makeNodeError Base (VStr C) args st = (Ok o, st') ->
  forall s, get o (VStr "name") s = (Ok (VStr (name Base +:+ "[" +:+ C +:+ "]")), s).
Proof.
  intros H s. destruct (makeNodeError_stamped _ _ _ _ _ _ H) as [<- Hst].
  by apply get_name_stamped.
Qed.

(** The array that [...args] allocates holds the arguments. *)
Lemma alloc_array (xs : list val) (st : state) :
  array_at (heap (exec (alloc xs) st)) (fresh (dom (heap st))) = xs.
Proof. unfold array_at, exec, alloc; simpl. by rewrite lookup_insert_eq. Qed.

(** The construction returns whenever [message] returns a string. *)
Lemma makeNodeError_returns (Base : BaseKind) (key : val) (args : list val)
    (st st' : state) (m : string) :
  message key (Some (fresh (dom (heap st)))) (exec (alloc args) st) = (Ok (VStr m), st') ->
  makeNodeError Base key args st
    = (Ok (captureStackTrace
             (set_own kCode key (Object Base {[ VStr "message" := VStr m ]} None))), st').
Proof.
  intros H. unfold makeNodeError. unfold bind at 1.
  change (alloc args st) with (Ok (fresh (dom (heap st))), exec (alloc args) st).
  cbv beta iota. unfold bind at 1. by rewrite H.
Qed.

Lemma loaded_messages (h : gmap nat (list val)) : messages (loaded h) = messages (loaded ∅).
Proof. reflexivity. Qed.

Lemma loaded_invalid_arg_type (h : gmap nat (list val)) :
  registered (loaded h) "ERR_INVALID_ARG_TYPE" (VFun FnInvalidArgType).
Proof. reflexivity. Qed.

(** C7: once the module is loaded,
    [new TypeError('ERR_INVALID_ARG_TYPE', 'name', 'string', 5)] returns an
    instance whose [message] is
    [The "name" argument must be type string. Received type number], whose
    [code] is ['ERR_INVALID_ARG_TYPE'] and whose [name] is
    ['TypeError[ERR_INVALID_ARG_TYPE]']. *)
Theorem TypeError_invalid_arg_type (h : gmap nat (list val)) :
  exists o st',
    TypeError (VStr "ERR_INVALID_ARG_TYPE") [VStr "name"; VStr "string"; VNum 5] (loaded h)
      = (Ok o, st')
    /\ (forall s, get o (VStr "message") s
          = (Ok (VStr ("The " +:+ quote +:+ "name" +:+ quote
                        +:+ " argument must be type string. Received type number")), s))
    /\ (forall s, get o (VStr "code") s = (Ok (VStr "ERR_INVALID_ARG_TYPE"), s))
    /\ (forall s, get o (VStr "name") s = (Ok (VStr "TypeError[ERR_INVALID_ARG_TYPE]"), s)).
Proof.
  eexists _, _. split.
  - unfold TypeError. apply makeNodeError_returns.
    set (args := [VStr "name"; VStr "string"; VNum 5]).
    set (st1 := exec (alloc args) (loaded h)).
    assert (registered st1 "ERR_INVALID_ARG_TYPE" (VFun FnInvalidArgType)) as Hreg
      by exact (loaded_invalid_arg_type h).
    assert (args_of st1 (Some (fresh (dom (heap (loaded h))))) = args) as Hargs.
    { apply alloc_array. }
    rewrite (message_of_function _ _ _ _ Hreg), Hargs. reflexivity.
  - split; [|split]; intros s.
    + reflexivity.
    + by apply get_code_stamped.
    + by apply (get_name_stamped "ERR_INVALID_ARG_TYPE").
Qed.

(** ** More of the module *)

(** *** What writes and what does not *)

Lemma pure_ret {A} (a : A) : pure (ret a).
Proof. by intros st. Qed.

Lemma pure_throw {A} (e : exn) : pure (@throw A e).
Proof. by intros st. Qed.

Lemma pure_gets {A} (f : state -> A) : pure (gets f).
Proof. by intros st. Qed.

Lemma pure_lift {A} (r : res A) : pure (lift r).
Proof. by intros st. Qed.

Lemma pure_bind {A B} (m : M A) (k : A -> M B) :
  pure m -> (forall a, pure (k a)) -> pure (bind m k).
Proof.
  intros Hm Hk st. unfold exec, bind. specialize (Hm st). unfold exec in Hm.
  destruct (m st) as [[a|e] st1]; simpl in *; subst st1; [apply Hk|done].
Qed.

Lemma pure_String (v : val) : pure (String_ v).
Proof. intros st. unfold exec. by rewrite String_pure. Qed.

Lemma pure_ToString (v : val) : pure (ToString v).
Proof. destruct v; try apply pure_String. apply pure_throw. Qed.

Lemma pure_assert_ok (v : val) (m : string) : pure (assert_ok v m).
Proof. unfold assert_ok. destruct (truthy v); [apply pure_ret|apply pure_throw]. Qed.

Lemma pure_traverse_String (xs : list val) : pure (traverse String_ xs).
Proof.
  induction xs as [|x xs IH]; [apply pure_ret|].
  simpl. apply pure_bind; [apply pure_String|intros y].
  apply pure_bind; [exact IH|intros ys]. apply pure_ret.
Qed.

Ltac pure_step :=
  first
    [ apply pure_ret | apply pure_throw | apply pure_gets | apply pure_lift
    | apply pure_String | apply pure_ToString | apply pure_assert_ok
    | apply pure_traverse_String
    | apply pure_bind; [|intros ?]
    | case_decide
    | match goal with
      | |- pure (match ?x with _ => _ end) => destruct x
      end ].

Ltac pure_tac := cbv zeta; repeat pure_step.

(** A computation that begins with [lazyAssert()] and writes nothing else. *)
Lemma exec_lazyAssert_then {A} (m : M A) (st : state) :
  pure m -> exec (lazyAssert ;;; m) st = set_assert true st.
Proof.
  intros Hm. unfold exec, bind. simpl.
  specialize (Hm (set_assert true st)). unfold exec in Hm.
  by destruct (m (set_assert true st)) as [[a|e] st1]; simpl in *.
Qed.

Lemma exec_invalidArgType (arguments : list val) (st : state) :
  exec (invalidArgType arguments) st = set_assert true st.
Proof. apply exec_lazyAssert_then; pure_tac. Qed.

Lemma exec_invalidArgValue (arguments : list val) (st : state) :
  exec (invalidArgValue arguments) st = set_assert true st.
Proof. apply exec_lazyAssert_then; pure_tac. Qed.

(** X1: [invalidArgType] and [invalidArgValue] write nothing but the lazily
    required [assert] module, whether they return or throw: the caller's
    [expected] array, the store and [messages] are as before. *)
Theorem invalidArg_writes_nothing (arguments : list val) (st : state) :
  exec (invalidArgType arguments) st = set_assert true st
  /\ exec (invalidArgValue arguments) st = set_assert true st.
Proof.
  split; [apply exec_invalidArgType | apply exec_invalidArgValue].
Qed.

Lemma same_but_refl (l0 : option nat) (st : state) : same_but l0 st st.
Proof. by split. Qed.

Lemma same_but_trans (l0 : option nat) (st1 st2 st3 : state) :
  same_but l0 st1 st2 -> same_but l0 st2 st3 -> same_but l0 st1 st3.
Proof.
  intros [Hm1 Hh1] [Hm2 Hh2]. split; [congruence|].
  intros l Hl. by rewrite Hh2, Hh1.
Qed.

Lemma keeps_pure {A} (l0 : option nat) (m : M A) : pure m -> keeps l0 m.
Proof. intros Hm st. rewrite Hm. apply same_but_refl. Qed.

Lemma keeps_bind {A B} (l0 : option nat) (m : M A) (k : A -> M B) :
  keeps l0 m -> (forall a, keeps l0 (k a)) -> keeps l0 (bind m k).
Proof.
  intros Hm Hk st. specialize (Hm st). unfold exec, bind in *.
  destruct (m st) as [[a|e] st1]; simpl in *; [|done].
  eapply same_but_trans; [exact Hm|apply Hk].
Qed.

Lemma keeps_set_assert (l0 : option nat) (b : bool) : keeps l0 (modify (set_assert b)).
Proof. intros st. by split. Qed.

Lemma keeps_set_util (l0 : option nat) (b : bool) : keeps l0 (modify (set_util b)).
Proof. intros st. by split. Qed.

Lemma keeps_unshift (l : nat) (v : val) : keeps (Some l) (unshift l v).
Proof.
  intros st. split; [done|]. intros l' Hl. unfold exec, unshift, modify; simpl.
  rewrite lookup_insert_ne; [done|congruence].
Qed.

Lemma keeps_call (l0 : option nat) (f : funref) (xs : list val) :
  builtin f -> keeps l0 (call f xs).
Proof.
  intros Hf. destruct f; unfold call.
  - apply keeps_pure; pure_tac.
  - intros st. rewrite exec_invalidArgType. by split.
  - intros st. rewrite exec_invalidArgValue. by split.
  - apply keeps_pure; pure_tac.
  - apply keeps_pure; pure_tac.
  - apply keeps_pure; pure_tac.
  - apply keeps_pure; pure_tac.
  - destruct Hf.
Qed.

Lemma keeps_bind_with {A B} (l0 : option nat) (P : A -> Prop) (m : M A) (k : A -> M B) :
  keeps l0 m ->
  (forall st a st', m st = (Ok a, st') -> P a) ->
  (forall a, P a -> keeps l0 (k a)) ->
  keeps l0 (bind m k).
Proof.
  intros Hm HP Hk st. specialize (Hm st). specialize (HP st).
  unfold exec, bind in *.
  destruct (m st) as [[a|e] st1]; simpl in *; [|done].
  eapply same_but_trans; [exact Hm|]. apply Hk. by eapply HP.
Qed.

Lemma keeps_format (l0 : option nat) (xs : list val) : keeps l0 (format xs).
Proof. apply keeps_pure. unfold format. pure_tac. Qed.

Lemma keeps_apply (l0 args : option nat) (fmt : jsfun) :
  (forall xs, keeps l0 (fmt xs)) -> keeps l0 (apply fmt args).
Proof.
  intros Hf. destruct args as [l|]; simpl; [|apply Hf].
  apply keeps_bind; [apply keeps_pure, pure_gets|]. intros xs. apply Hf.
Qed.

(** The part of [message] after the type check, on the template [msg]. *)
Lemma keeps_message_body (C : string) (args : option nat) (msg : val) :
  (forall f, msg = VFun f -> builtin f) ->
  keeps args
    (assert_ok msg ("An invalid error message key was used: " +:+ C +:+ ".") ;;;
     step <~ match msg with
             | VFun f => ret (inr (call f))
             | _ =>
                 match args with
                 | None => ret (inl msg)
                 | Some l =>
                     len <~ gets (fun st => length (array_at (heap st) l)) ;;
                     if decide (len = 0%nat) then ret (inl msg)
                     else unshift l msg ;;; ret (inr format)
                 end
             end ;;
     match step with
     | inl v => ret v
     | inr fmt => r <~ apply fmt args ;; s <~ String_ r ;; ret (VStr s)
     end).
Proof.
  intros Hmsg.
  apply keeps_bind; [apply keeps_pure, pure_assert_ok|intros _].
  apply (keeps_bind_with args
           (fun step => match step with
                        | inl _ => True
                        | inr fmt => forall xs, keeps args (fmt xs)
                        end)).
  - destruct msg; try (apply keeps_pure, pure_ret).
    all: destruct args as [la|]; [|apply keeps_pure, pure_ret].
    all: apply keeps_bind; [apply keeps_pure, pure_gets|intros len];
      case_decide; [apply keeps_pure, pure_ret|];
      apply keeps_bind; [apply keeps_unshift|intros _]; apply keeps_pure, pure_ret.
  - intros st step st' Hstep.
    destruct msg as [| | | | | |lm|f].
    8: { injection Hstep as <- _. intros xs. apply keeps_call. by apply Hmsg. }
    all: destruct args as [la|]; [|by injection Hstep as <- _].
    all: unfold bind, gets in Hstep; simpl in Hstep;
      case_decide; injection Hstep as <- _; [done|].
    all: intros xs; apply keeps_format.
  - intros [v|fmt] Hfmt; [apply keeps_pure, pure_ret|].
    apply keeps_bind; [by apply keeps_apply|intros r].
    apply keeps_pure. pure_tac.
Qed.

(** [message] stops at its type check for a key that is not a string. *)
Lemma message_rejects_key (key : val) (args : option nat) (st : state) :
  typeof key <> "string" ->
  exec (message key args) st = set_assert true st.
Proof.
  intros Hty. unfold exec, message, bind; simpl.
  unfold assert_strictEqual. rewrite decide_False; [done|]. congruence.
Qed.

Lemma message_same_but (key : val) (args : option nat) (st : state) :
  no_closure st key -> same_but args st (exec (message key args) st).
Proof.
  intros Hno. destruct (decide (typeof key = "string")) as [Hty|Hty].
  - destruct key; try discriminate Hty. unfold exec.
    rewrite message_string_key.
    apply (same_but_trans _ _ (required st)); [by split|].
    apply (keeps_message_body s args). intros f Hf. apply Hno.
    destruct (messages st !! VStr s) as [v|]; simpl in Hf; by subst.
  - rewrite message_rejects_key by done. by split.
Qed.

(** X2: when the template stored under [key] is not a closure of the
    embedder, [message(key, args)] never changes [messages] and changes no
    array other than [args], whether it returns or throws. *)
Theorem message_keeps_registry (key : val) (args : option nat) (st : state) :
  no_closure st key ->
  messages (exec (message key args) st) = messages st
  /\ forall l, args <> Some l -> heap (exec (message key args) st) !! l = heap st !! l.
Proof. intros Hno. exact (message_same_but key args st Hno). Qed.

(** X3: for a code registered with a function of errors.js, [message]
    leaves the whole store as it was, [args] included: the [unshift] of line
    55 is for string templates only. *)
Theorem function_template_keeps_args (C : string) (f : funref) (args : option nat)
    (st : state) :
  registered st C (VFun f) ->
  builtin f ->
  heap (exec (message (VStr C) args) st) = heap st.
Proof.
  intros Hreg Hf. unfold exec. rewrite (message_of_function C f) by done.
  assert (keeps None (r <~ call f (args_of st args) ;; s <~ String_ r ;; ret (VStr s)))
    as Hk.
  { apply keeps_bind; [by apply keeps_call|intros r]. apply keeps_pure. pure_tac. }
  destruct (Hk (required st)) as [_ Hh]. apply map_eq. intros l.
  by rewrite Hh.
Qed.

Lemma pure_construct_base (Base : BaseKind) (msg : val) : pure (construct_base Base msg).
Proof. unfold construct_base. pure_tac. Qed.

(** The state a construction leaves is the one [message] leaves on the
    fresh array. *)
Lemma exec_makeNodeError (Base : BaseKind) (key : val) (args : list val) (st : state) :
  exec (makeNodeError Base key args) st
    = exec (message key (Some (fresh (dom (heap st))))) (exec (alloc args) st).
Proof.
  unfold makeNodeError. unfold exec at 1. unfold bind at 1.
  change (alloc args st) with (Ok (fresh (dom (heap st))), exec (alloc args) st).
  cbv beta iota. unfold bind at 1. unfold exec at 2.
  destruct (message key _ _) as [[msg|e] st1]; [|done].
  unfold bind. pose proof (pure_construct_base Base msg st1) as Hp.
  unfold exec in Hp. by destruct (construct_base Base msg st1) as [[o|e] st2].
Qed.

(** X4: constructing an instance changes neither [messages] nor any array
    that existed before, also for a string template with arguments: the
    [unshift] falls on the fresh array of the rest parameter. *)
Theorem makeNodeError_keeps_arrays (Base : BaseKind) (key : val) (args : list val)
    (st : state) :
  no_closure st key ->
  messages (exec (makeNodeError Base key args) st) = messages st
  /\ forall l, is_Some (heap st !! l) ->
       heap (exec (makeNodeError Base key args) st) !! l = heap st !! l.
Proof.
  intros Hno. rewrite exec_makeNodeError.
  destruct (message_same_but key (Some (fresh (dom (heap st)))) (exec (alloc args) st))
    as [Hm Hh]; [exact Hno|].
  split; [by rewrite Hm|].
  intros l Hl. assert (l <> fresh (dom (heap st))) as Hne.
  { intros ->. apply elem_of_dom in Hl. by apply is_fresh in Hl. }
  rewrite Hh by congruence. unfold exec, alloc; simpl.
  by rewrite lookup_insert_ne.
Qed.

(** *** The templates in [messages] *)

Lemma template_result (v t : val) (h : gmap nat (list val)) :
  result (template v) (unloaded h) = Ok t ->
  typeof t = "string" \/ typeof t = "function".
Proof.
  unfold template, result. case_decide as Hty.
  - intros [= <-]. by right.
  - unfold bind. destruct (String_ v (unloaded h)) as [[s|e] st1]; [|done].
    intros [= <-]. by left.
Qed.

Lemma E_templates_ok (sym v : val) (st : state) :
  templates_ok st -> templates_ok (exec (E sym v) st).
Proof.
  intros Hok. rewrite exec_E.
  destruct (result (template v) _) as [t|e] eqn:Ht; [|done].
  intros k w. simpl. rewrite lookup_insert. case_decide.
  - intros [= <-]. by eapply template_result.
  - apply Hok.
Qed.

Lemma registers_templates_ok (rs : list (val * val)) (st : state) :
  templates_ok st -> templates_ok (registers rs st).
Proof.
  revert st. induction rs as [|r rs IH]; intros st Hok; [done|].
  rewrite registers_cons. by apply IH, E_templates_ok.
Qed.

(** Loading the module is nine calls of [E]. *)
Lemma loaded_registers (h : gmap nat (list val)) :
  loaded h =
  registers
    [ (VStr "ERR_ASSERTION", VFun FnErrAssertion);
      (VStr "ERR_INVALID_ARGS", VStr "invalid arguments");
      (VStr "ERR_INVALID_ARG_TYPE", VFun FnInvalidArgType);
      (VStr "ERR_INVALID_ARG_VALUE", VFun FnInvalidArgValue);
      (VStr "ERR_INVALID_CALLBACK", VStr "callback must be a function");
      (VStr "ERR_INVALID_FLAG", VFun FnInvalidFlag);
      (VStr "ERR_INVALID_IP", VFun FnInvalidIp);
      (VStr "ERR_INVALID_PORT", VFun FnInvalidPort);
      (VStr "ERR_SETTING_SERVERS", VFun FnSettingServers) ]
    (unloaded h).
Proof. reflexivity. Qed.

Lemma loaded_templates_ok (h : gmap nat (list val)) : templates_ok (loaded h).
Proof.
  rewrite loaded_registers. apply registers_templates_ok.
  intros k v. unfold unloaded; simpl. by rewrite lookup_empty.
Qed.

(** X5: whatever is passed to [E], in every state reached from the loading
    of the module by calls of [E], each template in [messages] is a string or
    a function: [E] converts anything else with [String]. *)
Theorem registry_templates_ok (rs : list (val * val)) (h : gmap nat (list val)) :
  templates_ok (registers rs (loaded h)).
Proof. apply registers_templates_ok, loaded_templates_ok. Qed.

(** The tail of [message], line 57, returns a string. *)
Lemma line57_returns_string {A} (m1 : M A) (m2 : A -> M string)
    (st st' : state) (m : val) :
  (r <~ m1 ;; s <~ m2 r ;; ret (VStr s)) st = (Ok m, st') -> exists s, m = VStr s.
Proof.
  unfold bind. destruct (m1 st) as [[r|e] st1]; [|done].
  destruct (m2 r st1) as [[s|e] st2]; [|done].
  intros [= <- _]. by eexists.
Qed.

(** What [message] can return: the string of line 57, or the stored template
    itself, which is then truthy and not a function. *)
Lemma message_returns (key : val) (args : option nat) (st st' : state) (m : val) :
  message key args st = (Ok m, st') ->
  (exists s, m = VStr s)
  \/ (messages st !! key = Some m /\ truthy m = true /\ typeof m <> "function").
Proof.
  intros H. pose proof (message_returns_string_key _ _ _ _ _ H) as Hty.
  destruct key as [| | | |C| | |]; try discriminate Hty. clear Hty.
  rewrite message_string_key in H. cbv zeta in H.
  destruct (messages st !! VStr C) as [v|] eqn:Hv; simpl in H; [|done].
  unfold assert_ok in H. destruct (truthy v) eqn:Htr; [|done].
  unfold bind at 1 in H. simpl in H.
  destruct v as [| | | | | |lv|f].
  8: { left. unfold bind at 1 in H. simpl in H.
       by eapply line57_returns_string. }
  all: destruct args as [la|];
    [|injection H as <- _; right; by repeat split].
  all: unfold bind at 1 2 in H; simpl in H;
    case_decide;
    [ injection H as <- _; right; by repeat split
    | left; unfold bind at 1 in H; simpl in H; by eapply line57_returns_string ].
Qed.

(** X6: in a state where every template is a string or a function (so in
    every state reached through [E]), whenever [message(key, args)] returns,
    it returns a string. *)
Theorem message_result_is_string (key : val) (args : option nat)
    (st st' : state) (m : val) :
  templates_ok st ->
  message key args st = (Ok m, st') ->
  exists s, m = VStr s.
Proof.
  intros Hok H. destruct (message_returns _ _ _ _ _ H) as [Hs|(Hl & _ & Hnf)]; [done|].
  destruct (Hok _ _ Hl) as [Hty|Hty]; [|done].
  destruct m; try discriminate Hty. by eexists.
Qed.

(** *** Constructing *)

(** X7: in a state where every template is a string or a function, an
    instance that the constructor returned has as [message] the very string
    that [message(key, args)] returned for the array of its arguments. *)
Theorem makeNodeError_message (Base : BaseKind) (key : val) (args : list val)
    (st st' : state) (o : object) :
  templates_ok st ->
  makeNodeError Base key args st = (Ok o, st') ->
  exists m,
    message key (Some (fresh (dom (heap st)))) (exec (alloc args) st) = (Ok (VStr m), st')
    /\ forall s, get o (VStr "message") s = (Ok (VStr m), s).
Proof.
  intros Hok H.
  destruct (makeNodeError_Ok _ _ _ _ _ _ H) as (msg & o0 & _ & Hmsg & Hb & ->).
  destruct (message_returns _ _ _ _ _ Hmsg) as [[m ->]|(Hl & _ & Hnf)].
  - exists m. split; [done|]. intros s.
    injection Hb as <-. reflexivity.
  - destruct (Hok _ _ Hl) as [Hty|Hty]; [|done].
    destruct msg as [| | | |m| | |]; try discriminate Hty.
    exists m. split; [done|]. intros s. injection Hb as <-. reflexivity.
Qed.

(** X8: constructing with a string code that is not registered throws the
    assertion error of line 48 and returns no instance, for every base kind
    and all arguments. *)
Theorem makeNodeError_unregistered (Base : BaseKind) (C : string) (args : list val)
    (st : state) :
  unregistered st C ->
  makeNodeError Base (VStr C) args st
    = (Throw (AssertionError
                (Some ("An invalid error message key was used: " +:+ C +:+ "."))),
       required (exec (alloc args) st)).
Proof.
  intros Hun. unfold makeNodeError. unfold bind at 1.
  change (alloc args st) with (Ok (fresh (dom (heap st))), exec (alloc args) st).
  cbv beta iota. unfold bind at 1. rewrite message_string_key.
  change (messages (exec (alloc args) st)) with (messages st).
  unfold unregistered in Hun. by rewrite Hun.
Qed.

(** X9: constructing with a key that is not a string throws the assertion
    error of line 45 and returns no instance, whatever [messages] holds for
    that key. *)
Theorem makeNodeError_non_string_key (Base : BaseKind) (key : val) (args : list val)
    (st : state) :
  typeof key <> "string" ->
  makeNodeError Base key args st
    = (Throw (AssertionError None), set_assert true (exec (alloc args) st)).
Proof.
  intros Hty. unfold makeNodeError. unfold bind at 1.
  change (alloc args st) with (Ok (fresh (dom (heap st))), exec (alloc args) st).
  cbv beta iota. unfold bind at 1. unfold message, bind; simpl.
  unfold assert_strictEqual. rewrite decide_False; [done|]. congruence.
Qed.

Lemma assign_base (strict : bool) (key : val) (st : state) (o : object)
    (pv : string * val) :
  pv.1 <> "__proto__" ->
  stamped key o -> base (assign strict st o pv) = base o.
Proof.
  intros Hpv (_ & _ & _ & Hproto). unfold assign, put.
  destruct (own o !! VStr pv.1); [done|]. rewrite Hproto.
  case_decide; [by destruct strict|].
  by rewrite decide_False by congruence.
Qed.

Lemma assigns_base (strict : bool) (key : val) (st : state)
    (pvs : list (string * val)) (o : object) :
  Forall (fun pv => pv.1 <> "__proto__") pvs ->
  stamped key o -> base (assigns strict st pvs o) = base o.
Proof.
  revert o. induction pvs as [|pv pvs IH]; intros o Hpvs Hst; [done|].
  inversion Hpvs as [|? ? Hpv Hpvs']; subst. simpl.
  rewrite IH; [by eapply assign_base|done|by apply assign_stamped].
Qed.

(** X10: after any assignments to properties named by strings other than
    [__proto__] (whose setter replaces the prototype and with it the
    accessor), in strict or sloppy code, the [name] of an instance is still
    the name of its base kind followed by its code in brackets: [name] has a
    getter only. *)
Theorem name_survives_assignments (Base : BaseKind) (C : string) (args : list val)
    (st st' : state) (o : object) (strict : bool) (pvs : list (string * val))
    (s s' : state) :
  makeNodeError Base (VStr C) args st = (Ok o, st') ->
  Forall (fun pv => pv.1 <> "__proto__") pvs ->
  get (assigns strict s pvs o) (VStr "name") s'
    = (Ok (VStr (name Base +:+ "[" +:+ C +:+ "]")), s').
Proof.
  intros H Hpvs. destruct (makeNodeError_stamped _ _ _ _ _ _ H) as [<- Hst].
  rewrite <- (assigns_base strict (VStr C) s pvs o Hpvs Hst).
  apply get_name_stamped. by apply assigns_stamped.
Qed.

(** *** Registering and resolving *)

(** [message] on a code registered with a non-empty string, without
    arguments. *)
Lemma message_of_string_no_args (C S : string) (args : option nat) (st : state) :
  registered st C (VStr S) ->
  S <> "" ->
  args_of st args = [] ->
  message (VStr C) args st = (Ok (VStr S), required st).
Proof.
  intros Hreg HS Hargs. rewrite message_string_key.
  unfold registered in Hreg. rewrite Hreg. simpl.
  unfold assert_ok. rewrite (proj2 (truthy_VStr S) HS).
  unfold bind at 1. simpl.
  destruct args as [l|]; [|done].
  simpl in Hargs. unfold bind, gets; simpl. by rewrite Hargs.
Qed.

(** X11: round trip.  After [E(C, v)] for a [v] that is not a function,
    and any registrations of other keys, [message(C)] without arguments
    returns [String(v)], unless that is the empty string: [E(C, 0)] and
    [E(C, null)] resolve to ['0'] and ['null']. *)
Theorem E_then_message (C : string) (v : val) (s : string) (rs : list (val * val))
    (args : option nat) (st : state) :
  typeof v <> "function" ->
  result (String_ v) st = Ok s ->
  s <> "" ->
  Forall (fun r => r.1 <> VStr C) rs ->
  args_of st args = [] ->
  result (message (VStr C) args) (registers rs (exec (E (VStr C) v) st)) = Ok (VStr s).
Proof.
  intros Hty Hs Hne Hrs Hargs.
  assert (registered (registers rs (exec (E (VStr C) v) st)) C (VStr s)) as Hreg.
  { unfold registered. rewrite registers_other by done. rewrite exec_E.
    unfold result in Hs. rewrite String_pure in Hs. simpl in Hs.
    unfold template. rewrite decide_False by done.
    unfold result, bind.
    rewrite (String_pure v (unloaded (heap st))). simpl. rewrite Hs. simpl.
    apply lookup_insert_eq. }
  unfold result. rewrite (message_of_string_no_args C s); [done..|].
  destruct args as [l|]; [|done]. simpl in *.
  by rewrite heap_registers, heap_exec_E.
Qed.

(** X19: [E(sym, val)] writes the entry of [sym] in [messages] and nothing
    else: all other entries, the store and the lazily required modules are
    as before, whether the conversion of [val] returns or throws. *)
Theorem E_frame (sym v : val) (st : state) :
  delete sym (messages (exec (E sym v) st)) = delete sym (messages st)
  /\ heap (exec (E sym v) st) = heap st
  /\ assert (exec (E sym v) st) = assert st
  /\ util (exec (E sym v) st) = util st.
Proof.
  rewrite exec_E. destruct (result (template v) _); [|done].
  simpl. by rewrite delete_insert_eq.
Qed.

(** X12: last write wins.  Registering [sym] again with a string or a
    function replaces the earlier template and leaves the state that the
    later call alone would have left. *)
Theorem E_last_write_wins (sym v1 v2 : val) (st : state) :
  typeof v2 = "string" \/ typeof v2 = "function" ->
  exec (E sym v2) (exec (E sym v1) st) = exec (E sym v2) st
  /\ messages (exec (E sym v2) (exec (E sym v1) st)) !! sym = Some v2.
Proof.
  intros Hty.
  assert (result (template v2) (unloaded (heap st)) = Ok v2) as Ht.
  { destruct Hty as [Hty|Hty].
    - by destruct v2.
    - unfold template. by rewrite decide_True. }
  rewrite E_overwrite, Ht. split; [done|].
  rewrite exec_E, Ht. apply lookup_insert_eq.
Qed.

(** X13: resolving twice with one array.  For a code registered with a
    non-empty string [S] and a non-empty array [args], a second
    [message(C, args)] with the same array formats [S, S, ...args]: the first
    call left [S] in front. *)
Theorem message_twice_same_args (C S : string) (l : nat) (st : state) :
  registered st C (VStr S) ->
  S <> "" ->
  array_at (heap st) l <> [] ->
  let xs := VStr S :: VStr S :: array_at (heap st) l in
  result (message (VStr C) (Some l)) (exec (message (VStr C) (Some l)) st)
    = res_map VStr (util_format (<[l := xs]> (heap st)) xs).
Proof.
  intros Hreg HS Hxs xs. unfold exec.
  rewrite (message_of_string_args C S l st Hreg HS Hxs). simpl.
  set (h1 := <[l := VStr S :: array_at (heap st) l]> (heap st)).
  assert (array_at h1 l = VStr S :: array_at (heap st) l) as Hat
    by (unfold array_at at 1, h1; by rewrite lookup_insert_eq).
  unfold result.
  rewrite (message_of_string_args C S l (set_heap h1 (required st)));
    [|done|done|simpl; by rewrite Hat].
  simpl. rewrite Hat. unfold h1. by rewrite insert_insert_eq.
Qed.

(** *** The two argument messages *)

Lemma append_assoc (s1 s2 s3 : string) : (s1 +:+ s2) +:+ s3 = s1 +:+ s2 +:+ s3.
Proof.
  induction s1 as [|a s1 IH]; [done|].
  change (String a ((s1 +:+ s2) +:+ s3) = String a (s1 +:+ s2 +:+ s3)).
  by rewrite IH.
Qed.

Lemma traverse_String_strs (ys : list string) (st : state) :
  traverse String_ (VStr <$> ys) st = (Ok ys, st).
Proof.
  induction ys as [|y ys IH]; [done|].
  change (traverse String_ (VStr <$> y :: ys) st)
    with ((y' <~ ret y ;; ys' <~ traverse String_ (VStr <$> ys) ;; ret (y' :: ys')) st).
  unfold bind at 1. unfold ret at 1. unfold bind at 1. by rewrite IH.
Qed.

(** X14: when [name] or [expected] is missing or falsy, [invalidArgType]
    and [invalidArgValue] throw the assertion error 'name is required', or
    'expected is required' when only [expected] is. *)
Theorem invalidArg_requires (arguments : list val) (st : state) :
  truthy (arg 0 arguments) = false \/ truthy (arg 1 arguments) = false ->
  let m := if truthy (arg 0 arguments) then "expected is required"
           else "name is required" in
  invalidArgType arguments st = (Throw (AssertionError (Some m)), set_assert true st)
  /\ invalidArgValue arguments st = (Throw (AssertionError (Some m)), set_assert true st).
Proof.
  intros H m. subst m. unfold invalidArgType, invalidArgValue, assert_ok.
  destruct (truthy (arg 0 arguments)); [|by split].
  destruct H as [H|H]; [done|]. rewrite H. by split.
Qed.

(** X15: for a name that is a non-empty string and an [expected] array of
    two or more strings, [invalidArgType] lists all but the last separated by
    commas, then ', or ' and the last; [invalidArgValue] does the same without
    'one of type'. *)
Theorem invalidArg_lists_expected (n y : string) (ys : list string) (l : nat)
    (st : state) :
  n <> "" ->
  ys <> [] ->
  heap st !! l = Some (VStr <$> (ys ++ [y])%list) ->
  invalidArgType [VStr n; VArr l] st
    = (Ok (VStr ("The " +:+ quote +:+ n +:+ quote +:+ " argument must be one of type "
                 +:+ join ", " ys +:+ ", or " +:+ y)),
       set_assert true st)
  /\ invalidArgValue [VStr n; VArr l] st
    = (Ok (VStr ("The " +:+ quote +:+ n +:+ quote +:+ " argument must be "
                 +:+ join ", " ys +:+ ", or " +:+ y)),
       set_assert true st).
Proof.
  intros Hn Hys Hl.
  assert (truthy (VStr n) = true) as Htr by (by apply truthy_VStr).
  assert (1 < length (VStr <$> (ys ++ [y])%list))%nat as Hlen.
  { rewrite length_fmap, length_app. destruct ys; [done|]. simpl. lia. }
  assert (take (length (VStr <$> (ys ++ [y])%list) - 1) (ys ++ [y])%list = ys) as Htake.
  { rewrite length_fmap, length_app. simpl.
    replace (length ys + 1 - 1)%nat with (length ys) by lia.
    by rewrite take_app_length. }
  assert ((ys ++ [y])%list !! (length (VStr <$> (ys ++ [y])%list) - 1)%nat = Some y) as Hlast.
  { rewrite length_fmap, length_app. simpl.
    replace (length ys + 1 - 1)%nat with (length ys + 0)%nat by lia.
    by rewrite lookup_app_r, Nat.add_comm, Nat.add_sub by lia. }
  split.
  - unfold invalidArgType. cbv zeta. unfold arg. simpl.
    unfold assert_ok. rewrite Htr. unfold bind at 1 2 3 4. simpl.
    unfold bind at 1 2. simpl. unfold array_at. rewrite Hl. simpl.
    unfold bind at 1. rewrite traverse_String_strs.
    rewrite decide_True by done. rewrite Htake, Hlast. simpl.
    unfold ret. do 2 f_equal. f_equal.
    rewrite !append_assoc. reflexivity.
  - unfold invalidArgValue. cbv zeta. unfold arg. simpl.
    unfold assert_ok. rewrite Htr. unfold bind at 1 2 3 4. simpl.
    unfold bind at 1 2. simpl. unfold array_at. rewrite Hl. simpl.
    unfold bind at 1. rewrite traverse_String_strs.
    rewrite decide_True by done. rewrite Htake, Hlast. simpl.
    unfold ret. do 2 f_equal. f_equal.
    rewrite !append_assoc. reflexivity.
Qed.

(** X16: an [expected] array without elements passes the check of line 106
    (an array is truthy) and is reported as 'type undefined' by
    [invalidArgType] and as 'undefined' by [invalidArgValue]. *)
Theorem invalidArg_empty_expected (n : string) (l : nat) (st : state) :
  n <> "" ->
  heap st !! l = Some [] ->
  invalidArgType [VStr n; VArr l] st
    = (Ok (VStr ("The " +:+ quote +:+ n +:+ quote +:+ " argument must be type undefined")),
       set_assert true st)
  /\ invalidArgValue [VStr n; VArr l] st
    = (Ok (VStr ("The " +:+ quote +:+ n +:+ quote +:+ " argument must be undefined")),
       set_assert true st).
Proof.
  intros Hn Hl.
  assert (truthy (VStr n) = true) as Htr by (by apply truthy_VStr).
  split.
  - unfold invalidArgType. cbv zeta. unfold arg. simpl.
    unfold assert_ok. rewrite Htr. unfold bind at 1 2 3 4. simpl.
    unfold bind at 1 2. simpl. unfold array_at. rewrite Hl. simpl.
    unfold ret. do 2 f_equal. f_equal.
    rewrite !append_assoc. reflexivity.
  - unfold invalidArgValue. cbv zeta. unfold arg. simpl.
    unfold assert_ok. rewrite Htr. unfold bind at 1 2 3 4. simpl.
    unfold bind at 1 2. simpl. unfold array_at. rewrite Hl. simpl.
    unfold ret. do 2 f_equal. f_equal.
    rewrite !append_assoc. reflexivity.
Qed.

Lemma bind_ext {A B} (m : M A) (k1 k2 : A -> M B) (st : state) :
  (forall a st', m st = (Ok a, st') -> k1 a st' = k2 a st') ->
  bind m k1 st = bind m k2 st.
Proof.
  intros H. unfold bind. destruct (m st) as [[a|e] st']; [by apply H|done].
Qed.

Lemma bind_cong {A B} (m1 m2 : M A) (k : A -> M B) (st : state) :
  m1 st = m2 st -> bind m1 k st = bind m2 k st.
Proof. intros H. unfold bind. by rewrite H. Qed.

Lemma pure_Ok {A} (m : M A) (a : A) (st st' : state) :
  pure m -> m st = (Ok a, st') -> st' = st.
Proof. intros Hp H. specialize (Hp st). unfold exec in Hp. by rewrite H in Hp. Qed.

(** Lines 109 and 110 on a one-element array. *)
Lemma singleton_traverse {B} (K : list val -> list string -> M B) (e : val) (l : nat)
    (st : state) :
  heap st !! l = Some [e] ->
  (xs <~ gets (fun st => array_at (heap st) l) ;;
   expected <~ traverse String_ xs ;;
   K xs expected) st
  = (s <~ String_ e ;; K [e] [s]) st.
Proof.
  intros Hl. unfold bind at 1. unfold gets. unfold array_at. rewrite Hl.
  cbv beta iota. change (default [] (Some [e])) with [e].
  change (traverse String_ [e])
    with (y <~ String_ e ;; ys <~ ret [] ;; ret (y :: ys)).
  unfold bind. by destruct (String_ e st) as [[s|err] st1].
Qed.

(** X17: an [expected] array of one element that is truthy and not itself
    an array gives the same message, and the same throw, as that element
    passed alone. *)
Theorem invalidArg_singleton_expected (n e : val) (l : nat) (rest : list val)
    (st : state) :
  heap st !! l = Some [e] ->
  truthy e = true ->
  (forall l', e <> VArr l') ->
  invalidArgType (n :: VArr l :: rest) st = invalidArgType (n :: e :: rest) st
  /\ invalidArgValue (n :: VArr l :: rest) st = invalidArgValue (n :: e :: rest) st.
Proof.
  intros Hl Htr Hne.
  assert (assert_ok e "expected is required" = assert_ok (VArr l) "expected is required")
    as Hexp by (unfold assert_ok; simpl; by rewrite Htr).
  split.
  - unfold invalidArgType. cbv zeta.
    change (arg 0 (n :: VArr l :: rest)) with n.
    change (arg 0 (n :: e :: rest)) with n.
    change (arg 1 (n :: VArr l :: rest)) with (VArr l).
    change (arg 1 (n :: e :: rest)) with e.
    change (arg 2 (n :: VArr l :: rest)) with (arg 2 (n :: e :: rest)).
    change (length (n :: VArr l :: rest)) with (length (n :: e :: rest)).
    rewrite Hexp.
    apply bind_ext. intros _ st1 [= <-].
    apply bind_ext. intros _ st2 ->%pure_Ok; [|apply pure_assert_ok].
    apply bind_ext. intros _ st3 ->%pure_Ok; [|apply pure_assert_ok].
    apply bind_ext. intros n' st4 ->%pure_Ok; [|apply pure_ToString].
    apply bind_cong.
    etrans; [apply singleton_traverse; subst; exact Hl|].
    destruct e as [| | | | | |le|f]; try reflexivity. by destruct (Hne le).
  - unfold invalidArgValue. cbv zeta.
    change (arg 0 (n :: VArr l :: rest)) with n.
    change (arg 0 (n :: e :: rest)) with n.
    change (arg 1 (n :: VArr l :: rest)) with (VArr l).
    change (arg 1 (n :: e :: rest)) with e.
    change (arg 2 (n :: VArr l :: rest)) with (arg 2 (n :: e :: rest)).
    change (length (n :: VArr l :: rest)) with (length (n :: e :: rest)).
    rewrite Hexp.
    apply bind_ext. intros _ st1 [= <-].
    apply bind_ext. intros _ st2 ->%pure_Ok; [|apply pure_assert_ok].
    apply bind_ext. intros _ st3 ->%pure_Ok; [|apply pure_assert_ok].
    apply bind_ext. intros n' st4 ->%pure_Ok; [|apply pure_ToString].
    apply bind_cong.
    etrans; [apply singleton_traverse; subst; exact Hl|].
    destruct e as [| | | | | |le|f]; try reflexivity. by destruct (Hne le).
Qed.

Lemma bind_map {A} (g : val -> val) (m : M A) (k1 k2 : A -> M val) (st : state) :
  (forall a st', k2 a st' = (res_map g (result (k1 a) st'), exec (k1 a) st')) ->
  bind m k2 st = (res_map g (result (bind m k1) st), exec (bind m k1) st).
Proof.
  intros H. unfold bind, result, exec.
  destruct (m st) as [[a|e] st']; [apply H|done].
Qed.

(** X18: a third argument, also an explicit [undefined], appends
    '. Received type ' and its [typeof] ('null' for [null]) to what
    [invalidArgType] returns for the first two ('. Received ' for
    [invalidArgValue]); arguments after the third are ignored; a throw of the
    two-argument call is the throw of the longer one. *)
Theorem invalidArg_received (n e a : val) (rest : list val) (st : state) :
  invalidArgType (n :: e :: a :: rest) st
    = (res_map (with_received ". Received type " a) (result (invalidArgType [n; e]) st),
       set_assert true st)
  /\ invalidArgValue (n :: e :: a :: rest) st
    = (res_map (with_received ". Received " a) (result (invalidArgValue [n; e]) st),
       set_assert true st).
Proof.
  split.
  - rewrite <- (exec_invalidArgType [n; e] st).
    unfold invalidArgType. cbv zeta.
    change (arg 0 (n :: e :: a :: rest)) with n. change (arg 0 [n; e]) with n.
    change (arg 1 (n :: e :: a :: rest)) with e. change (arg 1 [n; e]) with e.
    change (arg 2 (n :: e :: a :: rest)) with a.
    do 5 (apply bind_map; intros ? ?).
    rewrite (decide_True (P := (3 <= length (n :: e :: a :: rest))%nat))
      by (simpl; lia).
    rewrite (decide_False (P := (3 <= length [n; e])%nat)) by (simpl; lia).
    reflexivity.
  - rewrite <- (exec_invalidArgValue [n; e] st).
    unfold invalidArgValue. cbv zeta.
    change (arg 0 (n :: e :: a :: rest)) with n. change (arg 0 [n; e]) with n.
    change (arg 1 (n :: e :: a :: rest)) with e. change (arg 1 [n; e]) with e.
    change (arg 2 (n :: e :: a :: rest)) with a.
    do 5 (apply bind_map; intros ? ?).
    rewrite (decide_True (P := (3 <= length (n :: e :: a :: rest))%nat))
      by (simpl; lia).
    rewrite (decide_False (P := (3 <= length [n; e])%nat)) by (simpl; lia).
    reflexivity.
Qed.

(** *** The arrow templates *)

Lemma arg_primitive (i : nat) (args : list val) :
  Forall primitive args -> primitive (arg i args).
Proof.
  intros Hall. unfold arg. destruct (args !! i) as [v|] eqn:Hv; [|done].
  simpl. by eapply Forall_lookup_1.
Qed.

Lemma ToString_primitive (v : val) :
  primitive v -> exists s, forall st, ToString v st = (Ok s, st).
Proof. destruct v; try done; intros _; by eexists. Qed.

(** X20: the arrow templates of lines 92 to 98 check nothing: on arguments
    that are neither symbols, arrays nor functions they return a string and
    write nothing, also when arguments are missing. *)
Theorem arrow_template_returns (f : funref) (args : list val) (st : state) :
  arrow f ->
  Forall primitive args ->
  exists s, call f args st = (Ok (VStr s), st).
Proof.
  intros Hf Hargs.
  destruct (ToString_primitive _ (arg_primitive 0 args Hargs)) as [s0 H0].
  destruct (ToString_primitive _ (arg_primitive 1 args Hargs)) as [s1 H1].
  destruct f; try done; unfold call, bind; rewrite H0, ?H1; by eexists.
Qed.

End Host.

(** ** Examples

    A host to run the module on: objects print as Node prints an array of
    primitives; closure 0 is [(a, b) => `${a + b}`] on numbers; the formatter
    separates its arguments by spaces, as [util.format] does for a format
    string without directives. *)

Definition host_show (v : val) : string :=
  match v with
  | VBool b => if b then "true" else "false"
  | VNum n => pretty n
  | VStr s => s
  | VSym _ d => "Symbol(" +:+ d +:+ ")"
  | _ => ""
  end.

Definition host_string (h : gmap nat (list val)) (v : val) : res string :=
  match v with
  | VArr l => Ok (join "," (host_show <$> array_at h l))
  | _ => Ok "function () { [native code] }"
  end.

Definition host_closures (id : nat) : jsfun := fun a =>
  match id, arg 0 a, arg 1 a with
  | O, VNum x, VNum y => ret (VStr (pretty (x + y)))
  | _, _, _ => ret VUndefined
  end.

Definition host_format (h : gmap nat (list val)) (xs : list val) : res string :=
  Ok (join " " (host_show <$> xs)).

(** Numbers that are not safe integers print as [Infinity] does; no example
    below has one. *)
Definition host_number (n : Z) : string := "Infinity".

Definition host_getter_only (p : val) : string :=
  "Cannot set property " +:+ host_show p +:+ " of #<NodeError> which has only a getter".

(** Arrays and functions as prototypes: nothing is found along their chain,
    and every name becomes an own property. *)
Definition host_foreign_get (w p : val) : val := VUndefined.

Definition host_foreign_put (strict : bool) (w : val) (o : object) (p v : val)
  : res object :=
  Ok (set_own p v o).

Definition host_message : val -> option nat -> M val :=
  message host_string host_closures host_format host_number.

Definition host_E : val -> val -> M unit := E host_string host_number.

(** The loaded module, over a store with the array [[1]] at 7 and the array
    [[2, 3]] at 8. *)
Definition st_loaded : state :=
  loaded host_string host_number {[ 7%nat := [VNum 1]; 8%nat := [VNum 2; VNum 3] ]}.

(** After [E('SUM', (a, b) => `${a + b}`)]. *)
Definition st_sum : state := exec (host_E (VStr "SUM") (VFun (FnUser 0))) st_loaded.

(** After [E('EMPTY', '')]. *)
Definition st_empty : state := exec (host_E (VStr "EMPTY") (VStr "")) st_loaded.

(** After [E(5, 'five')]. *)
Definition st_five : state := exec (host_E (VNum 5) (VStr "five")) st_loaded.

(** [new TypeError('ERR_INVALID_ARG_TYPE', 'name', 'string', 5)] *)
Definition new_TypeError : M object :=
  makeNodeError host_string host_closures "    at <anonymous>" host_format host_number BaseTypeError
    (VStr "ERR_INVALID_ARG_TYPE") [VStr "name"; VStr "string"; VNum 5].

(** The instance it returns. *)
Definition the_TypeError : object :=
  captureStackTrace "    at <anonymous>"
    (set_own kCode (VStr "ERR_INVALID_ARG_TYPE")
       (Object BaseTypeError
          {[ VStr "message" :=
               VStr ("The " +:+ quote +:+ "name" +:+ quote
                     +:+ " argument must be type string. Received type number") ]}
          None)).

Lemma message_fixed_no_args_witness :
  registered st_loaded "ERR_INVALID_ARGS" (VStr "invalid arguments")
  /\ host_message (VStr "ERR_INVALID_ARGS") None st_loaded
     = (Ok (VStr "invalid arguments"), required st_loaded).
Proof.
  assert (registered st_loaded "ERR_INVALID_ARGS" (VStr "invalid arguments")) as H
    by reflexivity.
  split; [exact H|].
  apply (message_fixed_no_args host_string host_closures host_format host_number
           "ERR_INVALID_ARGS" "invalid arguments" None st_loaded H);
    [discriminate | reflexivity].
Defined.

(** C1: the code breaks it on the empty string.  [E('EMPTY', '')] registers
    the template [''], a string as lines 74 to 76 allow, but line 48 tests the
    template for truthiness where it means presence: [message('EMPTY')]
    throws 'An invalid error message key was used: EMPTY.' and does not
    return ['']. *)
Lemma message_empty_template_no_args :
  registered st_empty "EMPTY" (VStr "")
  /\ args_of st_empty None = []
  /\ result (host_message (VStr "EMPTY") None) st_empty
     = Throw (AssertionError (Some "An invalid error message key was used: EMPTY."))
  /\ result (host_message (VStr "EMPTY") None) st_empty <> Ok (VStr "").
Proof.
  assert (result (host_message (VStr "EMPTY") None) st_empty
          = Throw (AssertionError (Some "An invalid error message key was used: EMPTY.")))
    as H by reflexivity.
  split; [|split; [|split]];
    [reflexivity | reflexivity | exact H | rewrite H; discriminate].
Qed.

Lemma message_function_witness :
  registered st_loaded "ERR_ASSERTION" (VFun FnErrAssertion)
  /\ call host_string host_closures host_number FnErrAssertion [VNum 2; VNum 3]
       (required st_loaded)
     = (Ok (VNum 2), required st_loaded)
  /\ host_message (VStr "ERR_ASSERTION") (Some 8%nat) st_loaded
     = (Ok (VStr "2"), required st_loaded)
  /\ registered st_sum "SUM" (VFun (FnUser 0))
  /\ host_message (VStr "SUM") (Some 8%nat) st_sum = (Ok (VStr "5"), required st_sum).
Proof.
  assert (registered st_loaded "ERR_ASSERTION" (VFun FnErrAssertion)) as H
    by reflexivity.
  assert (registered st_sum "SUM" (VFun (FnUser 0))) as H' by reflexivity.
  split; [exact H|]. split; [reflexivity|]. split; [|split; [exact H'|]].
  - apply (message_function host_string host_closures host_format host_number
             "ERR_ASSERTION" FnErrAssertion (Some 8%nat) st_loaded (required st_loaded)
             (VNum 2) "2" H);
      reflexivity.
  - apply (message_function host_string host_closures host_format host_number
             "SUM" (FnUser 0) (Some 8%nat) st_sum (required st_sum) (VStr "5") "5" H');
      reflexivity.
Defined.

Lemma message_unregistered_witness :
  exists m,
    host_message (VStr "NOT_REGISTERED") None
      (registers host_string host_number [(VStr "GREETING", VStr "hello")] st_loaded)
    = (Throw (AssertionError (Some m)),
       required (registers host_string host_number [(VStr "GREETING", VStr "hello")] st_loaded))
    /\ m = "An invalid error message key was used: NOT_REGISTERED."
    /\ includes m "NOT_REGISTERED".
Proof.
  apply (message_unregistered host_string host_closures host_format host_number
           "NOT_REGISTERED" None [(VStr "GREETING", VStr "hello")] st_loaded).
  - reflexivity.
  - repeat constructor. discriminate.
Defined.

Lemma message_non_string_key_witness :
  messages st_five !! VNum 5 = Some (VStr "five")
  /\ host_message (VNum 5) None st_five
     = (Throw (AssertionError None), set_assert true st_five).
Proof.
  split; [reflexivity|].
  apply (message_non_string_key host_string host_closures host_format host_number
           (VNum 5) None st_five).
  discriminate.
Defined.

Lemma message_fixed_args_witness :
  registered st_loaded "ERR_INVALID_ARGS" (VStr "invalid arguments")
  /\ array_at (heap st_loaded) 7%nat = [VNum 1]
  /\ result (host_message (VStr "ERR_INVALID_ARGS") (Some 7%nat)) st_loaded
     = Ok (VStr "invalid arguments 1").
Proof.
  assert (registered st_loaded "ERR_INVALID_ARGS" (VStr "invalid arguments")) as H
    by reflexivity.
  split; [exact H|]. split; [reflexivity|].
  unfold host_message.
  rewrite (message_fixed_args host_string host_closures host_format host_number
             "ERR_INVALID_ARGS" "invalid arguments" 7%nat st_loaded H);
    [reflexivity | discriminate | discriminate].
Defined.

(** C4: the code breaks it on the empty string, by the same test of line
    48: with [''] registered under 'EMPTY', [message('EMPTY', [1])] throws
    'An invalid error message key was used: EMPTY.' where the formatter
    applied to ['', 1] returns [' 1']. *)
Lemma message_empty_template_args :
  registered st_empty "EMPTY" (VStr "")
  /\ array_at (heap st_empty) 7%nat = [VNum 1]
  /\ result (host_message (VStr "EMPTY") (Some 7%nat)) st_empty
     = Throw (AssertionError (Some "An invalid error message key was used: EMPTY."))
  /\ result (host_message (VStr "EMPTY") (Some 7%nat)) st_empty
     <> res_map VStr (host_format (<[7%nat := [VStr ""; VNum 1]]> (heap st_empty))
                                  [VStr ""; VNum 1]).
Proof.
  assert (result (host_message (VStr "EMPTY") (Some 7%nat)) st_empty
          = Throw (AssertionError (Some "An invalid error message key was used: EMPTY.")))
    as H by reflexivity.
  split; [|split; [|split]];
    [reflexivity | reflexivity | exact H | rewrite H; discriminate].
Qed.

Lemma message_unshifts_args_witness :
  registered st_loaded "ERR_INVALID_ARGS" (VStr "invalid arguments")
  /\ array_at (heap st_loaded) 7%nat = [VNum 1]
  /\ array_at (heap (exec (host_message (VStr "ERR_INVALID_ARGS") (Some 7%nat)) st_loaded))
       7%nat
     = [VStr "invalid arguments"; VNum 1].
Proof.
  assert (registered st_loaded "ERR_INVALID_ARGS" (VStr "invalid arguments")) as H
    by reflexivity.
  split; [exact H|]. split; [reflexivity|].
  apply (message_unshifts_args host_string host_closures host_format host_number
           "ERR_INVALID_ARGS" "invalid arguments" 7%nat st_loaded H);
    discriminate.
Defined.

(** C10: the code breaks it on the empty string, by the same test of line
    48: with [''] registered under 'EMPTY', [message('EMPTY', args)] throws
    before the [unshift] of line 55, and [args] is as it was, without the
    template in front. *)
Lemma message_empty_template_keeps_args :
  registered st_empty "EMPTY" (VStr "")
  /\ array_at (heap st_empty) 7%nat = [VNum 1]
  /\ array_at (heap (exec (host_message (VStr "EMPTY") (Some 7%nat)) st_empty)) 7%nat
     = [VNum 1]
  /\ array_at (heap (exec (host_message (VStr "EMPTY") (Some 7%nat)) st_empty)) 7%nat
     <> VStr "" :: array_at (heap st_empty) 7%nat.
Proof.
  assert (array_at (heap (exec (host_message (VStr "EMPTY") (Some 7%nat)) st_empty)) 7%nat
          = [VNum 1]) as H by reflexivity.
  split; [|split; [|split]];
    [reflexivity | reflexivity | exact H | rewrite H; discriminate].
Qed.

Lemma E_idempotent_witness :
  let rs := [(VStr "GREETING", VStr "hello"); (VNum 5, VStr "five")] in
  let once := registers host_string host_number rs (exec (host_E (VStr "SUM") (VFun (FnUser 0))) st_loaded) in
  let twice := exec (host_E (VStr "SUM") (VFun (FnUser 0))) once in
  twice = once
  /\ forall key args, host_message key args twice = host_message key args once.
Proof.
  apply (E_idempotent host_string host_closures host_format host_number
           (VStr "SUM") (VFun (FnUser 0))
           [(VStr "GREETING", VStr "hello"); (VNum 5, VStr "five")] st_loaded).
  repeat constructor; discriminate.
Defined.

Lemma makeNodeError_code_witness :
  new_TypeError st_loaded = (Ok the_TypeError, exec new_TypeError st_loaded)
  /\ (forall s, get host_string host_number host_foreign_get the_TypeError (VStr "code") s
                = (Ok (VStr "ERR_INVALID_ARG_TYPE"), s))
  /\ (forall strict s, assign host_getter_only host_foreign_put strict s the_TypeError ("code", VStr "ERR_OTHER")
                       = the_TypeError)
  /\ (forall strict s s',
        get host_string host_number host_foreign_get
          (assigns host_getter_only host_foreign_put strict s [("message", VStr "m"); ("code", VNum 1)] the_TypeError)
          (VStr "code") s'
        = (Ok (VStr "ERR_INVALID_ARG_TYPE"), s')).
Proof.
  assert (new_TypeError st_loaded = (Ok the_TypeError, exec new_TypeError st_loaded)) as H
    by reflexivity.
  split; [exact H|].
  destruct (makeNodeError_code host_string host_closures "    at <anonymous>" host_format host_number host_getter_only host_foreign_get host_foreign_put
              BaseTypeError (VStr "ERR_INVALID_ARG_TYPE")
              [VStr "name"; VStr "string"; VNum 5] st_loaded _ _ H) as (Hget & Hput & Hall).
  split; [exact Hget|]. split; [|intros; apply Hall; repeat constructor; discriminate].
  intros strict s. apply (Hput strict (VStr "ERR_OTHER") s).
Defined.

Lemma makeNodeError_name_witness :
  new_TypeError st_loaded = (Ok the_TypeError, exec new_TypeError st_loaded)
  /\ forall s, get host_string host_number host_foreign_get the_TypeError (VStr "name") s
               = (Ok (VStr "TypeError[ERR_INVALID_ARG_TYPE]"), s).
Proof.
  assert (new_TypeError st_loaded = (Ok the_TypeError, exec new_TypeError st_loaded)) as H
    by reflexivity.
  split; [exact H|].
  apply (makeNodeError_name host_string host_closures "    at <anonymous>" host_format host_number host_foreign_get
           BaseTypeError "ERR_INVALID_ARG_TYPE"
           [VStr "name"; VStr "string"; VNum 5] st_loaded _ _ H).
Defined.

(** *** More examples *)

(** The loaded module over a store with the arrays
    [['string', 'number', 'boolean']] at 9, [[]] at 10 and [['string']]
    at 11. *)
Definition st_arrays : state :=
  loaded host_string host_number
    {[ 9%nat := [VStr "string"; VStr "number"; VStr "boolean"];
       10%nat := [];
       11%nat := [VStr "string"] ]}.

(** [new Error('ERR_INVALID_ARGS', 1)] *)
Definition new_Error : M object :=
  makeNodeError host_string host_closures "    at <anonymous>" host_format host_number BaseError
    (VStr "ERR_INVALID_ARGS") [VNum 1].

Lemma st_loaded_no_closure (C : string) (T : val) :
  registered st_loaded C T -> (forall id, T <> VFun (FnUser id)) ->
  no_closure st_loaded (VStr C).
Proof.
  intros Hreg HT f Hf. unfold registered in Hreg. rewrite Hreg in Hf.
  injection Hf as ->. destruct f; try done. by destruct (HT id).
Qed.

Lemma new_TypeError_returns :
  new_TypeError st_loaded = (Ok the_TypeError, exec new_TypeError st_loaded).
Proof. reflexivity. Qed.

Lemma message_keeps_registry_witness :
  messages (exec (host_message (VStr "ERR_INVALID_ARGS") (Some 7%nat)) st_loaded)
    = messages st_loaded
  /\ heap (exec (host_message (VStr "ERR_INVALID_ARGS") (Some 7%nat)) st_loaded) !! 8%nat
     = Some [VNum 2; VNum 3].
Proof.
  destruct (message_keeps_registry host_string host_closures host_format host_number
              (VStr "ERR_INVALID_ARGS") (Some 7%nat) st_loaded) as [Hm Hh].
  - apply (st_loaded_no_closure _ (VStr "invalid arguments")); [reflexivity|discriminate].
  - split; [exact Hm|]. rewrite Hh by discriminate. reflexivity.
Defined.

Lemma function_template_keeps_args_witness :
  heap (exec (host_message (VStr "ERR_INVALID_ARG_TYPE") (Some 8%nat)) st_loaded)
    = heap st_loaded.
Proof.
  apply (function_template_keeps_args host_string host_closures host_format host_number
           "ERR_INVALID_ARG_TYPE" FnInvalidArgType (Some 8%nat) st_loaded);
    [reflexivity | exact I].
Defined.

Lemma makeNodeError_keeps_arrays_witness :
  messages (exec new_Error st_loaded) = messages st_loaded
  /\ heap (exec new_Error st_loaded) !! 7%nat = Some [VNum 1].
Proof.
  destruct (makeNodeError_keeps_arrays host_string host_closures "    at <anonymous>"
              host_format host_number BaseError (VStr "ERR_INVALID_ARGS") [VNum 1] st_loaded)
    as [Hm Hh].
  - apply (st_loaded_no_closure _ (VStr "invalid arguments")); [reflexivity|discriminate].
  - split; [exact Hm|]. unfold new_Error. rewrite Hh; [reflexivity|by eexists].
Defined.

Lemma message_result_is_string_witness :
  templates_ok st_loaded
  /\ host_message (VStr "ERR_INVALID_ARGS") None st_loaded
     = (Ok (VStr "invalid arguments"), required st_loaded)
  /\ exists s, VStr "invalid arguments" = VStr s.
Proof.
  assert (templates_ok st_loaded) as Hok by apply loaded_templates_ok.
  assert (host_message (VStr "ERR_INVALID_ARGS") None st_loaded
          = (Ok (VStr "invalid arguments"), required st_loaded)) as H by reflexivity.
  split; [exact Hok|]. split; [exact H|].
  exact (message_result_is_string host_string host_closures host_format host_number
           (VStr "ERR_INVALID_ARGS") None st_loaded (required st_loaded)
           (VStr "invalid arguments") Hok H).
Defined.

Lemma makeNodeError_message_witness :
  exists m,
    host_message (VStr "ERR_INVALID_ARG_TYPE") (Some (fresh (dom (heap st_loaded))))
      (exec (alloc [VStr "name"; VStr "string"; VNum 5]) st_loaded)
    = (Ok (VStr m), exec new_TypeError st_loaded)
    /\ forall s, get host_string host_number host_foreign_get the_TypeError (VStr "message") s = (Ok (VStr m), s).
Proof.
  apply (makeNodeError_message host_string host_closures "    at <anonymous>" host_format host_number host_foreign_get
           BaseTypeError (VStr "ERR_INVALID_ARG_TYPE")
           [VStr "name"; VStr "string"; VNum 5] st_loaded).
  - apply loaded_templates_ok.
  - exact new_TypeError_returns.
Defined.

Lemma makeNodeError_unregistered_witness :
  makeNodeError host_string host_closures "    at <anonymous>" host_format host_number BaseRangeError
    (VStr "NOT_REGISTERED") [] st_loaded
  = (Throw (AssertionError
              (Some "An invalid error message key was used: NOT_REGISTERED.")),
     required (exec (alloc []) st_loaded)).
Proof.
  apply (makeNodeError_unregistered host_string host_closures "    at <anonymous>"
           host_format host_number BaseRangeError "NOT_REGISTERED" [] st_loaded).
  reflexivity.
Defined.

Lemma makeNodeError_non_string_key_witness :
  messages st_five !! VNum 5 = Some (VStr "five")
  /\ makeNodeError host_string host_closures "    at <anonymous>" host_format host_number BaseError
       (VNum 5) [] st_five
     = (Throw (AssertionError None), set_assert true (exec (alloc []) st_five)).
Proof.
  split; [reflexivity|].
  apply (makeNodeError_non_string_key host_string host_closures "    at <anonymous>"
           host_format host_number BaseError (VNum 5) [] st_five).
  discriminate.
Defined.

Lemma name_survives_assignments_witness :
  get host_string host_number host_foreign_get
    (assigns host_getter_only host_foreign_put true st_loaded [("name", VStr "Other"); ("message", VStr "m")] the_TypeError)
    (VStr "name") st_loaded
  = (Ok (VStr "TypeError[ERR_INVALID_ARG_TYPE]"), st_loaded).
Proof.
  apply (name_survives_assignments host_string host_closures "    at <anonymous>"
           host_format host_number host_getter_only host_foreign_get host_foreign_put BaseTypeError "ERR_INVALID_ARG_TYPE"
           [VStr "name"; VStr "string"; VNum 5] st_loaded _ the_TypeError true _
           st_loaded st_loaded new_TypeError_returns).
  repeat constructor; discriminate.
Defined.

Lemma E_then_message_witness :
  result (host_message (VStr "ZERO") None)
    (registers host_string host_number [(VStr "GREETING", VStr "hello")]
       (exec (host_E (VStr "ZERO") (VNum 0)) st_loaded))
  = Ok (VStr "0").
Proof.
  apply (E_then_message host_string host_closures host_format host_number
           "ZERO" (VNum 0) "0" [(VStr "GREETING", VStr "hello")] None st_loaded);
    [discriminate | reflexivity | discriminate | repeat constructor; discriminate
    | reflexivity].
Defined.

Lemma E_last_write_wins_witness :
  exec (host_E (VStr "GREETING") (VStr "hi"))
    (exec (host_E (VStr "GREETING") (VStr "hello")) st_loaded)
  = exec (host_E (VStr "GREETING") (VStr "hi")) st_loaded
  /\ messages (exec (host_E (VStr "GREETING") (VStr "hi"))
                 (exec (host_E (VStr "GREETING") (VStr "hello")) st_loaded))
       !! VStr "GREETING" = Some (VStr "hi").
Proof.
  apply (E_last_write_wins host_string host_number (VStr "GREETING") (VStr "hello") (VStr "hi") st_loaded).
  by left.
Defined.

Lemma message_twice_same_args_witness :
  result (host_message (VStr "ERR_INVALID_ARGS") (Some 7%nat))
    (exec (host_message (VStr "ERR_INVALID_ARGS") (Some 7%nat)) st_loaded)
  = Ok (VStr "invalid arguments invalid arguments 1").
Proof.
  unfold host_message.
  rewrite (message_twice_same_args host_string host_closures host_format host_number
             "ERR_INVALID_ARGS" "invalid arguments" 7%nat st_loaded);
    [reflexivity | reflexivity | discriminate | discriminate].
Defined.

Lemma invalidArg_requires_witness :
  invalidArgType host_string host_number [] st_loaded
    = (Throw (AssertionError (Some "name is required")), set_assert true st_loaded)
  /\ invalidArgValue host_string host_number [] st_loaded
    = (Throw (AssertionError (Some "name is required")), set_assert true st_loaded).
Proof.
  apply (invalidArg_requires host_string host_number [] st_loaded). by left.
Defined.

Lemma invalidArg_lists_expected_witness :
  invalidArgType host_string host_number [VStr "value"; VArr 9] st_arrays
    = (Ok (VStr ("The " +:+ quote +:+ "value" +:+ quote
                 +:+ " argument must be one of type string, number, or boolean")),
       set_assert true st_arrays)
  /\ invalidArgValue host_string host_number [VStr "value"; VArr 9] st_arrays
    = (Ok (VStr ("The " +:+ quote +:+ "value" +:+ quote
                 +:+ " argument must be string, number, or boolean")),
       set_assert true st_arrays).
Proof.
  apply (invalidArg_lists_expected host_string host_number "value" "boolean" ["string"; "number"]
           9%nat st_arrays); [discriminate | discriminate | reflexivity].
Defined.

Lemma invalidArg_empty_expected_witness :
  invalidArgType host_string host_number [VStr "value"; VArr 10] st_arrays
    = (Ok (VStr ("The " +:+ quote +:+ "value" +:+ quote
                 +:+ " argument must be type undefined")),
       set_assert true st_arrays)
  /\ invalidArgValue host_string host_number [VStr "value"; VArr 10] st_arrays
    = (Ok (VStr ("The " +:+ quote +:+ "value" +:+ quote
                 +:+ " argument must be undefined")),
       set_assert true st_arrays).
Proof.
  apply (invalidArg_empty_expected host_string host_number "value" 10%nat st_arrays);
    [discriminate | reflexivity].
Defined.

Lemma invalidArg_singleton_expected_witness :
  invalidArgType host_string host_number [VStr "value"; VArr 11; VNum 5] st_arrays
    = invalidArgType host_string host_number [VStr "value"; VStr "string"; VNum 5] st_arrays
  /\ invalidArgValue host_string host_number [VStr "value"; VArr 11; VNum 5] st_arrays
    = invalidArgValue host_string host_number [VStr "value"; VStr "string"; VNum 5] st_arrays.
Proof.
  apply (invalidArg_singleton_expected host_string host_number (VStr "value") (VStr "string")
           11%nat [VNum 5] st_arrays); [reflexivity | reflexivity | discriminate].
Defined.

Lemma arrow_template_returns_witness :
  exists s, call host_string host_closures host_number FnInvalidPort [] st_loaded = (Ok (VStr s), st_loaded).
Proof.
  apply (arrow_template_returns host_string host_closures host_number FnInvalidPort [] st_loaded);
    [exact I | constructor].
Defined.

End Errors.
